(** * generate_data.py: order items, reconciled totals and reviews

    A shallow embedding of [generate_data.py]: the script reads
    [data/customers.csv], [data/products.csv] and [data/orders.csv], draws
    the line items of every order, rewrites [data/orders.csv] with the
    accumulated totals, and draws at most 200 reviews of fulfilled
    purchases.

    Conventions of the embedding.
    - CSV rows are typed records.  Identifiers and statuses stay text (the
      script only compares them with [==]); a date column is the day it
      denotes, as the proleptic Gregorian ordinal of [datetime.toordinal];
      a price is a non-negative decimal numeral; a two-decimal amount is
      its number of cents.  These typed rows are the rows whose cells
      parse; the second part of the program keeps [price] and
      [order_date] as cells that [float] or [strptime] may reject, and
      runs the script on them.  Files whose rows lack a column are
      outside the embedding.
    - Python floats are IEEE-754 binary64 values, kept as the rational
      number they denote; every operation rounds to nearest, ties to even.
    - [random] is an oracle: a tape of raw draws, one draw per primitive.
      Quantifying over tapes quantifies over every run of the script.
    - Exceptions are explicit results; files are fields of a store. *)

From Stdlib Require Import ZArith QArith Qround Qabs Qpower Lqa Lia.
From Stdlib Require Import Bool String List Permutation DecimalString.
Import ListNotations.

Local Open Scope Z_scope.

(* ================================================================== *)
(** * The program *)

(* ------------------------------------------------------------------ *)
(** ** binary64 arithmetic *)

Module Double.

(** The doubles the script can compute: prices are non-negative, so no
    negative number and no negative infinity arises. *)
Inductive double : Type :=
| Fin (q : Q)
| Inf
| NaN.

(** [pow2 e] is 2^e for any integer exponent. *)
Definition pow2 (e : Z) : Q := (Qpower 2 e)%Q.

(** Round to the nearest integer, ties to the even one. *)
Definition rne (y : Q) : Z :=
  let f := Qfloor y in
  match Qcompare (y - inject_Z f)%Q (1 # 2)%Q with
  | Lt => f
  | Gt => f + 1
  | Eq => if Z.even f then f else f + 1
  end.

(** floor(log2 x) for [0 < x]. *)
Definition ilog2 (x : Q) : Z :=
  let e := Z.log2 (Qnum x) - Z.log2 (Zpos (Qden x)) in
  if Qle_bool (pow2 e) x then e else e - 1.

(** The binary64 value nearest to the non-negative rational [x]: 53
    significant bits, exponents from -1022 (below it the spacing stays
    2^-1074, the subnormal range), infinity from 2^1024 on. *)
Definition round64 (x : Q) : double :=
  if Qle_bool x 0 then Fin 0
  else
    let e := Z.max (ilog2 x) (-1022) in
    let ulp := pow2 (e - 52) in
    let y := (inject_Z (rne (x / ulp)) * ulp)%Q in
    if Qle_bool (pow2 1024) y then Inf else Fin (Qred y).

(** [a * b] on doubles. *)
Definition fmul (a b : double) : double :=
  match a, b with
  | Fin x, Fin y => round64 (x * y)%Q
  | Fin x, Inf | Inf, Fin x => if Qle_bool x 0 then NaN else Inf
  | Inf, Inf => Inf
  | _, _ => NaN
  end.

(** [a + b] on doubles. *)
Definition fadd (a b : double) : double :=
  match a, b with
  | Fin x, Fin y => round64 (x + y)%Q
  | NaN, _ | _, NaN => NaN
  | _, _ => Inf
  end.

(** [a - b] on doubles, for [b <= a] (the only use is [0.4 - 0.2]). *)
Definition fsub (a b : double) : double :=
  match a, b with
  | Fin x, Fin y => round64 (x - y)%Q
  | Inf, Fin _ => Inf
  | _, _ => NaN
  end.

(** An integer operand of a mixed [int * float] or [int + float]
    (integers below 2^1024; beyond, Python refuses the conversion). *)
Definition of_int (n : Z) : double := round64 (inject_Z n).

(** A decimal literal [n / d] of the program text. *)
Definition literal (n : Z) (d : positive) : double := round64 (n # d).

(** The text of [f"{x:.2f}"]: the decimal with two fractional digits
    nearest to the exact value of [x] (ties to even), kept as its number
    of hundredths; [inf] and [nan] print as such. *)
Inductive amount : Type :=
| Cents (c : Z)
| AmountInf
| AmountNan.

Definition format_2f (x : double) : amount :=
  match x with
  | Fin q => Cents (rne (q * 100)%Q)
  | Inf => AmountInf
  | NaN => AmountNan
  end.

(** [x < n] for a double [x] and an integer [n], as [bisect] asks it. *)
Definition flt_int (x : double) (n : Z) : bool :=
  match x with
  | Fin q => negb (Qle_bool (inject_Z n) q)
  | _ => false
  end.

End Double.
Import Double.

(* ------------------------------------------------------------------ *)
(** ** Exceptions, the random oracle and the generator monad *)

(** The exceptions the script can end with. *)
Inductive exn : Type :=
| FileNotFoundError
| ValueError
| OverflowError
| IndexError.

(** A value, or the exception raised instead. *)
Inductive outcome (A : Type) : Type :=
| Ok (a : A)
| Raise (e : exn).
Arguments Ok {A} a.
Arguments Raise {A} e.

(** The state of [random]: a tape of raw draws and the next position. *)
Record RNG : Type := { tape : nat -> N; cursor : nat }.

(** The next raw draw. *)
Definition draw (g : RNG) : N * RNG :=
  (tape g (cursor g), {| tape := tape g; cursor := S (cursor g) |}).

(** Code that draws random numbers and may raise. *)
Definition Gen (A : Type) : Type := RNG -> outcome (A * RNG).

Definition ret {A} (a : A) : Gen A := fun g => Ok (a, g).

Definition raise {A} (e : exn) : Gen A := fun _ => Raise e.

Definition bind {A B} (m : Gen A) (k : A -> Gen B) : Gen B :=
  fun g =>
    match m g with
    | Ok (a, g') => k a g'
    | Raise e => Raise e
    end.

Notation "x <- m ;; k" := (bind m (fun x => k))
  (at level 61, m at next level, right associativity).

(** [random._randbelow(n)]: any integer of [0, n). *)
Definition randbelow (n : Z) : Gen Z :=
  fun g => let (r, g') := draw g in Ok (Z.of_N r mod n, g').

(** [random.randint(a, b)]. *)
Definition randint (a b : Z) : Gen Z :=
  r <- randbelow (b - a + 1) ;; ret (a + r).

(** [random.random()]: a multiple of 2^-53 in [0, 1). *)
Definition random : Gen double :=
  fun g =>
    let (r, g') := draw g in
    Ok (Fin ((Z.of_N r mod 2 ^ 53) # 2 ^ 53), g').

(** [random.uniform(a, b)] is [a + (b - a) * self.random()]. *)
Definition uniform (a b : double) : Gen double :=
  r <- random ;; ret (fadd a (fmul (fsub b a) r)).

(** [random.choice(seq)]. *)
Definition choice {A} (seq : list A) : Gen A :=
  match seq with
  | [] => raise IndexError
  | d :: _ =>
      j <- randbelow (Z.of_nat (length seq)) ;;
      ret (nth (Z.to_nat j) seq d)
  end.

(** [pool[j] = x]. *)
Fixpoint set_nth {A} (j : nat) (x : A) (pool : list A) : list A :=
  match pool, j with
  | [], _ => []
  | _ :: t, O => x :: t
  | h :: t, S j' => h :: set_nth j' x t
  end.

(** One step of the pool of [random.sample]: the last live entry moves
    into the vacancy at [j] and the pool shrinks by one. *)
Definition vacate {A} (j : nat) (pool : list A) : list A :=
  match rev pool with
  | [] => []
  | l :: _ => firstn (length pool - 1) (set_nth j l pool)
  end.

(** The selection loop of [random.sample]: [k] draws, each from the
    entries not selected so far.  (For a large population CPython tracks
    the selected positions in a set instead; the results are the same
    sequences of [k] distinct positions.) *)
Fixpoint sample_pool {A} (pool : list A) (k : nat) : Gen (list A) :=
  match k with
  | O => ret []
  | S k' =>
      j <- randbelow (Z.of_nat (length pool)) ;;
      match nth_error pool (Z.to_nat j) with
      | None => raise IndexError
      | Some x =>
          rest <- sample_pool (vacate (Z.to_nat j) pool) k' ;;
          ret (x :: rest)
      end
  end.

(** [random.sample(population, k)]: [ValueError] unless
    [0 <= k <= len(population)]. *)
Definition sample {A} (population : list A) (k : Z) : Gen (list A) :=
  if (k <? 0) || (Z.of_nat (length population) <? k)
  then raise ValueError
  else sample_pool population (Z.to_nat k).

(** [bisect.bisect_right(a, x, lo, hi)] on a list of integers. *)
Fixpoint bisect_loop (fuel : nat) (a : list Z) (x : double) (lo hi : Z) : Z :=
  match fuel with
  | O => lo
  | S fuel' =>
      if lo <? hi then
        let mid := (lo + hi) / 2 in
        if flt_int x (nth (Z.to_nat mid) a 0)
        then bisect_loop fuel' a x lo mid
        else bisect_loop fuel' a x (mid + 1) hi
      else lo
  end.

(** The search interval halves at every step: [hi - lo] steps suffice. *)
Definition bisect (a : list Z) (x : double) (lo hi : Z) : Z :=
  bisect_loop (Z.to_nat (hi - lo)) a x lo hi.

(** [random.choices(population, weights=weights)[0]]: the cumulative
    weights, their total as a float, and a bisection for
    [random() * total] among all but the last of them. *)
Definition choices1 (population weights : list Z) : Gen Z :=
  let cum_weights :=
    snd (fold_left (fun '(acc, l) w => (acc + w, (l ++ [acc + w])%list))
                   weights (0, [])) in
  let total := fadd (of_int (last cum_weights 0)) (Fin 0) in
  let hi := Z.of_nat (length population) - 1 in
  r <- random ;;
  ret (nth (Z.to_nat (bisect cum_weights (fmul r total) 0 hi)) population 0).

(* ------------------------------------------------------------------ *)
(** ** The rows of the five CSV files *)

(** A non-negative decimal numeral: [dec_digits / 10 ^ dec_scale]. *)
Record decimal : Type := { dec_digits : N; dec_scale : nat }.

(** The number a numeral denotes. *)
Definition dec_value (p : decimal) : Q :=
  Z.of_N (dec_digits p) # Z.to_pos (10 ^ Z.of_nat (dec_scale p)).

(** [float(text)] of a decimal numeral: the nearest double. *)
Definition float_of_decimal (p : decimal) : double := round64 (dec_value p).

(** A row of [customers.csv]. *)
Record Customer : Type := {
  c_customer_id : string;
  first_name : string;
  last_name : string;
  email : string;
  phone : string;
  registration_date : Z;
  country : string;
  city : string;
  postal_code : string
}.

(** A row of [products.csv]. *)
Record Product : Type := {
  product_id : string;
  product_name : string;
  category : string;
  brand : string;
  price : decimal;
  stock_quantity : string;
  supplier_id : string
}.

(** A row of [orders.csv]. *)
Record Order : Type := {
  order_id : string;
  customer_id : string;
  order_date : Z;
  order_status : string;
  total_amount : amount;
  shipping_address : string;
  payment_method : string
}.

(** A row of [order_items.csv]; [oi_order_id] and [oi_product_id] are
    its columns [order_id] and [product_id]. *)
Record OrderItem : Type := {
  order_item_id : Z;
  oi_order_id : string;
  oi_product_id : string;
  quantity : Z;
  unit_price : amount;
  subtotal : amount
}.

(** A row of [reviews.csv]; [r_product_id] and [r_customer_id] are its
    columns [product_id] and [customer_id]. *)
Record Review : Type := {
  review_id : Z;
  r_product_id : string;
  r_customer_id : string;
  rating : Z;
  review_text : string;
  review_date : Z
}.

(* ------------------------------------------------------------------ *)
(** ** Order items (lines 21-51) *)

(** The loop over [selected_products] of one order; [total],
    [order_items] and [order_item_id] are the script's variables. *)
Fixpoint item_loop (order : Order) (selected_products : list Product)
    (total : double) (order_items : list OrderItem) (next_id : Z)
    : Gen (double * list OrderItem * Z) :=
  match selected_products with
  | [] => ret (total, order_items, next_id)
  | product :: rest =>
      quantity <- randint 1 3 ;;
      let unit_price := float_of_decimal (price product) in
      let subtotal := fmul (of_int quantity) unit_price in
      let total := fadd total subtotal in
      let item := {| order_item_id := next_id;
                     oi_order_id := order_id order;
                     oi_product_id := product_id product;
                     quantity := quantity;
                     unit_price := format_2f unit_price;
                     subtotal := format_2f subtotal |} in
      item_loop order rest total (order_items ++ [item])%list (next_id + 1)
  end.

(** The body of [for order in orders]: the items of one order and its
    [calculated_total]. *)
Definition order_body (products : list Product) (order : Order)
    (order_items : list OrderItem) (next_id : Z)
    : Gen (amount * list OrderItem * Z) :=
  num_items <- (if String.eqb (order_status order) "Cancelled"
                then randint 1 3 else randint 1 5) ;;
  selected_products <- sample products num_items ;;
  r <- item_loop order selected_products (of_int 0) order_items next_id ;;
  let '(total, order_items, next_id) := r in
  ret (format_2f total, order_items, next_id).

(** [for order in orders]: every order dictionary receives the key
    [calculated_total]; the result pairs each order with it. *)
Fixpoint order_loop (products : list Product) (orders : list Order)
    (order_items : list OrderItem) (next_id : Z)
    : Gen (list (Order * amount) * list OrderItem * Z) :=
  match orders with
  | [] => ret ([], order_items, next_id)
  | order :: rest =>
      r <- order_body products order order_items next_id ;;
      let '(calculated_total, order_items, next_id) := r in
      r' <- order_loop products rest order_items next_id ;;
      let '(done, order_items, next_id) := r' in
      ret ((order, calculated_total) :: done, order_items, next_id)
  end.

(** Lines 21-51: all orders, identifiers from 5001. *)
Definition generate_order_items (products : list Product)
    (orders : list Order) : Gen (list (Order * amount) * list OrderItem) :=
  r <- order_loop products orders [] 5001 ;;
  let '(done, order_items, _) := r in
  ret (done, order_items).

(** The rows written back to [orders.csv] (lines 62-76). *)
Definition rewrite_order (oc : Order * amount) : Order :=
  let (order, calculated_total) := oc in
  {| order_id := order_id order;
     customer_id := customer_id order;
     order_date := order_date order;
     order_status := order_status order;
     total_amount := calculated_total;
     shipping_address := shipping_address order;
     payment_method := payment_method order |}.

(* ------------------------------------------------------------------ *)
(** ** Reviews (lines 80-135) *)

(** An entry of [customer_product_map]: the dictionary
    [{'product_id': ..., 'order_date': ...}]. *)
Record Purchase : Type := { p_product_id : string; p_order_date : Z }.

(** [customer_product_map]: a dictionary, iterated in the order in which
    its keys were first inserted. *)
Definition PurchaseMap : Type := list (string * list Purchase).

(** [customer_product_map[customer_id].append(p)], creating the entry
    when the key is new. *)
Fixpoint map_append (cid : string) (p : Purchase) (m : PurchaseMap)
    : PurchaseMap :=
  match m with
  | [] => [(cid, [p])]
  | (k, l) :: m' =>
      if String.eqb k cid then (k, (l ++ [p])%list) :: m'
      else (k, l) :: map_append cid p m'
  end.

(** [order['order_status'] in ['Delivered', 'Shipped']]. *)
Definition fulfilled (order : Order) : bool :=
  String.eqb (order_status order) "Delivered"
  || String.eqb (order_status order) "Shipped".

(** The body of [for item in order_items] (lines 86-95). *)
Definition map_step (orders : list Order) (m : PurchaseMap)
    (item : OrderItem) : PurchaseMap :=
  match find (fun o => String.eqb (order_id o) (oi_order_id item)) orders with
  | Some order =>
      if fulfilled order
      then map_append (customer_id order)
             {| p_product_id := oi_product_id item;
                p_order_date := order_date order |} m
      else m
  | None => m
  end.

(** Lines 85-95: the purchases of every customer, from the items of
    fulfilled orders. *)
Definition customer_product_map (orders : list Order)
    (order_items : list OrderItem) : PurchaseMap :=
  fold_left (map_step orders) order_items [].

Local Open Scope string_scope.

(** The dictionary [review_texts]; no other key is looked up. *)
Definition review_texts (rating : Z) : list string :=
  match rating with
  | 5 => ["Excellent product! Exceeded my expectations.";
          "Perfect! Exactly what I needed.";
          "Outstanding quality and fast delivery.";
          "Absolutely love it! Highly recommend.";
          "Best purchase ever! Five stars!"]
  | 4 => ["Very good product, happy with purchase.";
          "Good quality, works as expected.";
          "Great product, minor issues but overall satisfied.";
          "Solid product, would buy again.";
          "Nice item, good value for money."]
  | 3 => ["Decent product, meets basic needs.";
          "Average quality, nothing special.";
          "It's okay, works fine but not amazing.";
          "Fair product for the price.";
          "Acceptable, does what it says."]
  | 2 => ["Disappointed, expected better quality.";
          "Not great, has some issues.";
          "Below expectations, wouldn't recommend.";
          "Poor quality, not worth the price.";
          "Unsatisfied, had problems with it."]
  | 1 => ["Terrible product, waste of money.";
          "Very disappointed, does not work.";
          "Awful quality, returned immediately.";
          "Complete disaster, do not buy.";
          "Worst purchase, totally unusable."]
  | _ => []
  end%Z.

Local Close Scope string_scope.

(** [datetime.max.toordinal()], the day 9999-12-31. *)
Definition max_ordinal : Z := 3652059.

(** [date + timedelta(days=n)]. *)
Definition add_days (date n : Z) : Gen Z :=
  if max_ordinal <? date + n then raise OverflowError else ret (date + n).

(** [int(x)] for a non-negative double. *)
Definition int_of_double (x : double) : Gen Z :=
  match x with
  | Fin q => ret (Qfloor q)
  | Inf => raise OverflowError
  | NaN => raise ValueError
  end.

(** The script's [reviews], [review_id] and [review_count]. *)
Record ReviewState : Type := {
  reviews : list Review;
  next_review_id : Z;
  review_count : Z
}.

(** [for product_order in reviewed_products] (lines 115-135). *)
Fixpoint emit_loop (cid : string) (reviewed_products : list Purchase)
    (st : ReviewState) : Gen ReviewState :=
  match reviewed_products with
  | [] => ret st
  | product_order :: rest =>
      if 200 <=? review_count st then ret st
      else
        rating <- choices1 [5; 4; 3; 2; 1] [40; 30; 15; 10; 5] ;;
        review_text <- choice (review_texts rating) ;;
        days <- randint 1 30 ;;
        review_date <- add_days (p_order_date product_order) days ;;
        let review := {| review_id := next_review_id st;
                         r_product_id := p_product_id product_order;
                         r_customer_id := cid;
                         rating := rating;
                         review_text := review_text;
                         review_date := review_date |} in
        emit_loop cid rest
          {| reviews := (reviews st ++ [review])%list;
             next_review_id := next_review_id st + 1;
             review_count := review_count st + 1 |}
  end.

(** [max(1, int(len(product_orders) * random.uniform(0.2, 0.4)))]. *)
Definition draw_num_reviews (product_orders : list Purchase) : Gen Z :=
  u <- uniform (literal 2 10) (literal 4 10) ;;
  n <- int_of_double
         (fmul (of_int (Z.of_nat (length product_orders))) u) ;;
  ret (Z.max 1 n).

(** [for customer_id, product_orders in customer_product_map.items()]
    (lines 107-135). *)
Fixpoint customer_loop (m : PurchaseMap) (st : ReviewState)
    : Gen ReviewState :=
  match m with
  | [] => ret st
  | (cid, product_orders) :: rest =>
      if 200 <=? review_count st then ret st
      else
        num_reviews <- draw_num_reviews product_orders ;;
        reviewed_products <-
          sample product_orders
            (Z.min num_reviews (Z.of_nat (length product_orders))) ;;
        st' <- emit_loop cid reviewed_products st ;;
        customer_loop rest st'
  end.

(** Lines 80-135: the purchase map, then the reviews, identifiers from
    6001. *)
Definition generate_reviews (orders : list Order)
    (order_items : list OrderItem) : Gen (list Review) :=
  st <- customer_loop (customer_product_map orders order_items)
          {| reviews := []; next_review_id := 6001; review_count := 0 |} ;;
  ret (reviews st).

(* ------------------------------------------------------------------ *)
(** ** The script as a whole *)

(** The directory [data/]: [None] is a file that does not exist. *)
Record Files : Type := {
  customers_csv : option (list Customer);
  products_csv : option (list Product);
  orders_csv : option (list Order);
  order_items_csv : option (list OrderItem);
  reviews_csv : option (list Review)
}.

(** The three writes: each replaces one file. *)
Definition write_order_items (rows : list OrderItem) (fs : Files) : Files :=
  {| customers_csv := customers_csv fs;
     products_csv := products_csv fs;
     orders_csv := orders_csv fs;
     order_items_csv := Some rows;
     reviews_csv := reviews_csv fs |}.

Definition write_orders (rows : list Order) (fs : Files) : Files :=
  {| customers_csv := customers_csv fs;
     products_csv := products_csv fs;
     orders_csv := Some rows;
     order_items_csv := order_items_csv fs;
     reviews_csv := reviews_csv fs |}.

Definition write_reviews (rows : list Review) (fs : Files) : Files :=
  {| customers_csv := customers_csv fs;
     products_csv := products_csv fs;
     orders_csv := orders_csv fs;
     order_items_csv := order_items_csv fs;
     reviews_csv := Some rows |}.

(** A run of the script: the files it leaves behind, and the exception
    that ended it, if one did. *)
Definition main (fs : Files) (g : RNG) : Files * option exn :=
  match customers_csv fs, products_csv fs, orders_csv fs with
  | Some customers, Some products, Some orders =>
      match generate_order_items products orders g with
      | Raise e => (fs, Some e)
      | Ok ((done, order_items), g1) =>
          let fs1 := write_order_items order_items fs in
          let fs2 := write_orders (map rewrite_order done) fs1 in
          match generate_reviews (map fst done) order_items g1 with
          | Raise e => (fs2, Some e)
          | Ok (reviews, _) => (write_reviews reviews fs2, None)
          end
      end
  | _, _, _ => (fs, Some FileNotFoundError)
  end.

(* ================================================================== *)
(** * The script on rows as they are read *)

(** The rows above are rows whose cells parse.  The script parses two
    columns, [price] with [float] and [order_date] with [strptime], and
    either call can raise [ValueError].  The rows below keep these two
    columns as cells; every other column, and every row the script
    writes, is as above.  A price that parses is, as above, a
    non-negative decimal numeral: the spellings [float] accepts for a
    signed number, an infinity or a NaN are left out. *)

(* ------------------------------------------------------------------ *)
(** ** Cells *)

(** A cell the script parses: the value of a text the parser accepts, or
    a text it rejects. *)
Inductive cell (A : Type) : Type :=
| Parsed (a : A)
| Malformed (text : string).
Arguments Parsed {A} a.
Arguments Malformed {A} text.

(** [float(product['price'])] (line 36). *)
Definition float_of_cell (c : cell decimal) : Gen double :=
  match c with
  | Parsed p => ret (float_of_decimal p)
  | Malformed _ => raise ValueError
  end.

(** [datetime.strptime(product_order['order_date'], '%Y-%m-%d')]
    (line 123). *)
Definition strptime (c : cell Z) : Gen Z :=
  match c with
  | Parsed date => ret date
  | Malformed _ => raise ValueError
  end.

(** A row of [products.csv] as read. *)
Record ProductRow : Type := {
  t_product_id : string;
  t_product_name : string;
  t_category : string;
  t_brand : string;
  t_price : cell decimal;
  t_stock_quantity : string;
  t_supplier_id : string
}.

(** A row of [orders.csv] as read. *)
Record OrderRow : Type := {
  t_order_id : string;
  t_customer_id : string;
  t_order_date : cell Z;
  t_order_status : string;
  t_total_amount : amount;
  t_shipping_address : string;
  t_payment_method : string
}.

(* ------------------------------------------------------------------ *)
(** ** Order items (lines 21-51) *)

(** The loop over [selected_products]: the quantity is drawn before the
    price is parsed. *)
Fixpoint item_loop_rows (order : OrderRow)
    (selected_products : list ProductRow) (total : double)
    (order_items : list OrderItem) (next_id : Z)
    : Gen (double * list OrderItem * Z) :=
  match selected_products with
  | [] => ret (total, order_items, next_id)
  | product :: rest =>
      quantity <- randint 1 3 ;;
      unit_price <- float_of_cell (t_price product) ;;
      let subtotal := fmul (of_int quantity) unit_price in
      let total := fadd total subtotal in
      let item := {| order_item_id := next_id;
                     oi_order_id := t_order_id order;
                     oi_product_id := t_product_id product;
                     quantity := quantity;
                     unit_price := format_2f unit_price;
                     subtotal := format_2f subtotal |} in
      item_loop_rows order rest total (order_items ++ [item])%list
        (next_id + 1)
  end.

Definition order_body_rows (products : list ProductRow) (order : OrderRow)
    (order_items : list OrderItem) (next_id : Z)
    : Gen (amount * list OrderItem * Z) :=
  num_items <- (if String.eqb (t_order_status order) "Cancelled"
                then randint 1 3 else randint 1 5) ;;
  selected_products <- sample products num_items ;;
  r <- item_loop_rows order selected_products (of_int 0) order_items
         next_id ;;
  let '(total, order_items, next_id) := r in
  ret (format_2f total, order_items, next_id).

Fixpoint order_loop_rows (products : list ProductRow)
    (orders : list OrderRow) (order_items : list OrderItem) (next_id : Z)
    : Gen (list (OrderRow * amount) * list OrderItem * Z) :=
  match orders with
  | [] => ret ([], order_items, next_id)
  | order :: rest =>
      r <- order_body_rows products order order_items next_id ;;
      let '(calculated_total, order_items, next_id) := r in
      r' <- order_loop_rows products rest order_items next_id ;;
      let '(done, order_items, next_id) := r' in
      ret ((order, calculated_total) :: done, order_items, next_id)
  end.

Definition generate_order_items_rows (products : list ProductRow)
    (orders : list OrderRow)
    : Gen (list (OrderRow * amount) * list OrderItem) :=
  r <- order_loop_rows products orders [] 5001 ;;
  let '(done, order_items, _) := r in
  ret (done, order_items).

(** The rows written back to [orders.csv] (lines 62-76): the date goes
    back as the text it was. *)
Definition rewrite_order_row (oc : OrderRow * amount) : OrderRow :=
  let (order, calculated_total) := oc in
  {| t_order_id := t_order_id order;
     t_customer_id := t_customer_id order;
     t_order_date := t_order_date order;
     t_order_status := t_order_status order;
     t_total_amount := calculated_total;
     t_shipping_address := t_shipping_address order;
     t_payment_method := t_payment_method order |}.

(* ------------------------------------------------------------------ *)
(** ** Reviews (lines 80-135) *)

(** An entry of [customer_product_map]: the date is still text. *)
Record PurchaseRow : Type := {
  t_p_product_id : string;
  t_p_order_date : cell Z
}.

Definition PurchaseRows : Type := list (string * list PurchaseRow).

Fixpoint map_append_rows (cid : string) (p : PurchaseRow) (m : PurchaseRows)
    : PurchaseRows :=
  match m with
  | [] => [(cid, [p])]
  | (k, l) :: m' =>
      if String.eqb k cid then (k, (l ++ [p])%list) :: m'
      else (k, l) :: map_append_rows cid p m'
  end.

Definition fulfilled_row (order : OrderRow) : bool :=
  String.eqb (t_order_status order) "Delivered"
  || String.eqb (t_order_status order) "Shipped".

Definition map_step_rows (orders : list OrderRow) (m : PurchaseRows)
    (item : OrderItem) : PurchaseRows :=
  match find (fun o => String.eqb (t_order_id o) (oi_order_id item)) orders
  with
  | Some order =>
      if fulfilled_row order
      then map_append_rows (t_customer_id order)
             {| t_p_product_id := oi_product_id item;
                t_p_order_date := t_order_date order |} m
      else m
  | None => m
  end.

Definition customer_product_map_rows (orders : list OrderRow)
    (order_items : list OrderItem) : PurchaseRows :=
  fold_left (map_step_rows orders) order_items [].

(** [for product_order in reviewed_products] (lines 115-135): the date
    is parsed after the rating and the text are drawn and before the
    days are. *)
Fixpoint emit_loop_rows (cid : string) (reviewed_products : list PurchaseRow)
    (st : ReviewState) : Gen ReviewState :=
  match reviewed_products with
  | [] => ret st
  | product_order :: rest =>
      if 200 <=? review_count st then ret st
      else
        rating <- choices1 [5; 4; 3; 2; 1] [40; 30; 15; 10; 5] ;;
        review_text <- choice (review_texts rating) ;;
        order_date <- strptime (t_p_order_date product_order) ;;
        days <- randint 1 30 ;;
        review_date <- add_days order_date days ;;
        let review := {| review_id := next_review_id st;
                         r_product_id := t_p_product_id product_order;
                         r_customer_id := cid;
                         rating := rating;
                         review_text := review_text;
                         review_date := review_date |} in
        emit_loop_rows cid rest
          {| reviews := (reviews st ++ [review])%list;
             next_review_id := next_review_id st + 1;
             review_count := review_count st + 1 |}
  end.

Definition draw_num_reviews_rows (product_orders : list PurchaseRow)
    : Gen Z :=
  u <- uniform (literal 2 10) (literal 4 10) ;;
  n <- int_of_double
         (fmul (of_int (Z.of_nat (length product_orders))) u) ;;
  ret (Z.max 1 n).

Fixpoint customer_loop_rows (m : PurchaseRows) (st : ReviewState)
    : Gen ReviewState :=
  match m with
  | [] => ret st
  | (cid, product_orders) :: rest =>
      if 200 <=? review_count st then ret st
      else
        num_reviews <- draw_num_reviews_rows product_orders ;;
        reviewed_products <-
          sample product_orders
            (Z.min num_reviews (Z.of_nat (length product_orders))) ;;
        st' <- emit_loop_rows cid reviewed_products st ;;
        customer_loop_rows rest st'
  end.

Definition generate_reviews_rows (orders : list OrderRow)
    (order_items : list OrderItem) : Gen (list Review) :=
  st <- customer_loop_rows (customer_product_map_rows orders order_items)
          {| reviews := []; next_review_id := 6001; review_count := 0 |} ;;
  ret (reviews st).

(* ------------------------------------------------------------------ *)
(** ** The script as a whole *)

(** The directory [data/] as the script finds and leaves it. *)
Record Disk : Type := {
  d_customers : option (list Customer);
  d_products : option (list ProductRow);
  d_orders : option (list OrderRow);
  d_order_items : option (list OrderItem);
  d_reviews : option (list Review)
}.

Definition save_order_items (rows : list OrderItem) (fs : Disk) : Disk :=
  {| d_customers := d_customers fs;
     d_products := d_products fs;
     d_orders := d_orders fs;
     d_order_items := Some rows;
     d_reviews := d_reviews fs |}.

Definition save_orders (rows : list OrderRow) (fs : Disk) : Disk :=
  {| d_customers := d_customers fs;
     d_products := d_products fs;
     d_orders := Some rows;
     d_order_items := d_order_items fs;
     d_reviews := d_reviews fs |}.

Definition save_reviews (rows : list Review) (fs : Disk) : Disk :=
  {| d_customers := d_customers fs;
     d_products := d_products fs;
     d_orders := d_orders fs;
     d_order_items := d_order_items fs;
     d_reviews := Some rows |}.

(** A run of the script: the files it leaves behind, and the exception
    that ended it, if one did. *)
Definition script (fs : Disk) (g : RNG) : Disk * option exn :=
  match d_customers fs, d_products fs, d_orders fs with
  | Some customers, Some products, Some orders =>
      match generate_order_items_rows products orders g with
      | Raise e => (fs, Some e)
      | Ok ((done, order_items), g1) =>
          let fs1 := save_order_items order_items fs in
          let fs2 := save_orders (map rewrite_order_row done) fs1 in
          match generate_reviews_rows (map fst done) order_items g1 with
          | Raise e => (fs2, Some e)
          | Ok (reviews, _) => (save_reviews reviews fs2, None)
          end
      end
  | _, _, _ => (fs, Some FileNotFoundError)
  end.

(* ------------------------------------------------------------------ *)
(** ** Rows whose cells parse *)

(** The typed rows are the rows whose cells parse. *)
Definition row_of_product (p : Product) : ProductRow :=
  {| t_product_id := product_id p;
     t_product_name := product_name p;
     t_category := category p;
     t_brand := brand p;
     t_price := Parsed (price p);
     t_stock_quantity := stock_quantity p;
     t_supplier_id := supplier_id p |}.

Definition row_of_order (o : Order) : OrderRow :=
  {| t_order_id := order_id o;
     t_customer_id := customer_id o;
     t_order_date := Parsed (order_date o);
     t_order_status := order_status o;
     t_total_amount := total_amount o;
     t_shipping_address := shipping_address o;
     t_payment_method := payment_method o |}.

Definition row_of_purchase (p : Purchase) : PurchaseRow :=
  {| t_p_product_id := p_product_id p;
     t_p_order_date := Parsed (p_order_date p) |}.

Definition rows_of_map (m : PurchaseMap) : PurchaseRows :=
  map (fun e => (fst e, map row_of_purchase (snd e))) m.

Definition done_rows (done : list (Order * amount))
    : list (OrderRow * amount) :=
  map (fun oc => (row_of_order (fst oc), snd oc)) done.

Definition disk_of_files (fs : Files) : Disk :=
  {| d_customers := customers_csv fs;
     d_products := option_map (map row_of_product) (products_csv fs);
     d_orders := option_map (map row_of_order) (orders_csv fs);
     d_order_items := order_items_csv fs;
     d_reviews := reviews_csv fs |}.

(* ------------------------------------------------------------------ *)
(** ** Vocabulary for malformed cells *)






(* ================================================================== *)
(** * Vocabulary of the properties *)

(* ------------------------------------------------------------------ *)
(** ** Samples *)

(** [sel] lists entries of [population] at pairwise distinct positions. *)
Definition selection {A} (population sel : list A) : Prop :=
  exists positions : list nat,
    NoDup positions /\
    Forall2 (fun i x => nth_error population i = Some x) positions sel.

(* ------------------------------------------------------------------ *)
(** ** What one order contributes *)

(** An order line: a selected product and the quantity drawn for it. *)
Definition make_item (order : Order) (id : Z) (line : Product * Z)
    : OrderItem :=
  let price_f := float_of_decimal (price (fst line)) in
  {| order_item_id := id;
     oi_order_id := order_id order;
     oi_product_id := product_id (fst line);
     quantity := snd line;
     unit_price := format_2f price_f;
     subtotal := format_2f (fmul (of_int (snd line)) price_f) |}.

Fixpoint make_items (order : Order) (id : Z) (lines : list (Product * Z))
    : list OrderItem :=
  match lines with
  | [] => []
  | line :: rest => make_item order id line :: make_items order (id + 1) rest
  end.

(** The unrounded subtotal of a line, and the running [total]. *)
Definition line_subtotal (line : Product * Z) : double :=
  fmul (of_int (snd line)) (float_of_decimal (price (fst line))).

Definition accumulate (total : double) (lines : list (Product * Z))
    : double :=
  fold_left (fun t line => fadd t (line_subtotal line)) lines total.

(** The largest [num_items] the status of [order] allows. *)
Definition max_items (order : Order) : Z :=
  if String.eqb (order_status order) "Cancelled" then 3 else 5.

(** [chunk] is what the loop body appends for [order] when the next
    free identifier is [id], and [ct] the total it stores. *)
Definition order_chunk (products : list Product) (order : Order) (id : Z)
    (ct : amount) (chunk : list OrderItem) : Prop :=
  exists lines : list (Product * Z),
    selection products (map fst lines) /\
    Forall (fun line => 1 <= snd line <= 3) lines /\
    1 <= Z.of_nat (length lines) <= max_items order /\
    chunk = make_items order id lines /\
    ct = format_2f (accumulate (of_int 0) lines).

(** The chunks of consecutive orders, identifiers running on. *)
Inductive chunked (products : list Product)
    : Z -> list (Order * amount) -> list (list OrderItem) -> Prop :=
| chunked_nil id : chunked products id [] []
| chunked_cons id order ct chunk done chunks :
    order_chunk products order id ct chunk ->
    chunked products (id + Z.of_nat (length chunk)) done chunks ->
    chunked products id ((order, ct) :: done) (chunk :: chunks).

(* ------------------------------------------------------------------ *)
(** ** Identifier sequences *)

(** [start, start + 1, ..., start + n - 1]. *)
Definition zrange (start : Z) (n : nat) : list Z :=
  map (fun i => start + Z.of_nat i) (seq 0 n).

(* ------------------------------------------------------------------ *)
(** ** What the review loops append *)

(** [r] reviews purchase [p] of customer [cid]. *)
Definition review_from (cid : string) (p : Purchase) (r : Review) : Prop :=
  r_customer_id r = cid /\
  r_product_id r = p_product_id p /\
  exists days, 1 <= days <= 30 /\ review_date r = p_order_date p + days.

(** The reviews a loop appended to state [st] to reach [st']. *)
Definition appended (st st' : ReviewState) (news : list Review) : Prop :=
  reviews st' = reviews st ++ news /\
  next_review_id st' = next_review_id st + Z.of_nat (length news) /\
  review_count st' = review_count st + Z.of_nat (length news) /\
  map review_id news = zrange (next_review_id st) (length news) /\
  (review_count st <= 200 -> review_count st' <= 200).

(** Where the entries of [customer_product_map] come from. *)
Definition purchase_of (orders : list Order) (all : list OrderItem)
    (cid : string) (p : Purchase) : Prop :=
  exists item order,
    In item all /\
    find (fun o => String.eqb (order_id o) (oi_order_id item)) orders
      = Some order /\
    fulfilled order = true /\
    customer_id order = cid /\
    p_product_id p = oi_product_id item /\
    p_order_date p = order_date order.

(** Every entry of [m] comes from an item of [all]. *)
Definition map_sound (orders : list Order) (all : list OrderItem)
    (m : PurchaseMap) : Prop :=
  forall cid l p, In (cid, l) m -> In p l -> purchase_of orders all cid p.

(* ------------------------------------------------------------------ *)
(** ** What the run leaves untouched *)

(** Row [n] is row [o] up to [total_amount]. *)
Definition same_but_total (o n : Order) : Prop :=
  order_id n = order_id o /\
  customer_id n = customer_id o /\
  order_date n = order_date o /\
  order_status n = order_status o /\
  shipping_address n = shipping_address o /\
  payment_method n = payment_method o.

(** [orders.csv] after the run is [orders.csv] before it, row by row, up
    to [total_amount]. *)
Definition orders_rewritten (fs fs' : Files) : Prop :=
  exists orders rewritten,
    orders_csv fs = Some orders /\
    orders_csv fs' = Some rewritten /\
    Forall2 same_but_total orders rewritten.

(* ------------------------------------------------------------------ *)
(** ** Prices and amounts in cents *)

(** A price that fits the column type [DECIMAL(10, 2)] of the product
    table: two fractional digits and at most ten digits in all. *)
Definition price_ok (p : decimal) : Prop :=
  dec_scale p = 2%nat /\ (dec_digits p <= 9999999999)%N.

(** The exact subtotal of a line, in cents, for a price in whole cents. *)
Definition line_cents (line : Product * Z) : Z :=
  (snd line * Z.of_N (dec_digits (price (fst line))))%Z.

(** A line the script can draw from a catalog of such prices. *)
Definition line_ok (line : Product * Z) : Prop :=
  price_ok (price (fst line)) /\ (1 <= snd line <= 3)%Z.

Definition sum_cents (cents : list Z) : Z := fold_right Z.add 0%Z cents.

(* ------------------------------------------------------------------ *)
(** ** Reconciled totals *)

(** The stored subtotals of [chunk] add up to the stored total: all of
    them are amounts in hundredths, and the sums agree to the cent. *)
Definition reconciled (total : amount) (chunk : list OrderItem) : Prop :=
  exists cents,
    map subtotal chunk = map Cents cents /\
    total = Cents (sum_cents cents).

(* ------------------------------------------------------------------ *)
(** ** Runs that write nothing *)


(* ================================================================== *)
(** * Example inputs *)

(* ------------------------------------------------------------------ *)
(** ** A small run *)

Module Demo.

Local Open Scope string_scope.

Definition mk_product (id : string) (cents : N) : Product :=
  {| product_id := id; product_name := ""; category := ""; brand := "";
     price := {| dec_digits := cents; dec_scale := 2 |};
     stock_quantity := ""; supplier_id := "" |}.

Definition mk_order (id cid : string) (date : Z) (status : string) : Order :=
  {| order_id := id; customer_id := cid; order_date := date;
     order_status := status; total_amount := Cents 0;
     shipping_address := ""; payment_method := "" |}.

(** A tape that holds [l] and zeros after it. *)
Definition mk_rng (l : list N) : RNG :=
  {| tape := fun i => nth i l 0%N; cursor := 0 |}.

Definition products : list Product :=
  [mk_product "101" 1000; mk_product "102" 2000; mk_product "103" 3000;
   mk_product "104" 4000; mk_product "105" 5000].

(** 2025-01-01, 2025-02-01 and 2025-02-18. *)
Definition orders : list Order :=
  [mk_order "1" "c1" 739252 "Delivered";
   mk_order "2" "c1" 739283 "Shipped";
   mk_order "3" "c2" 739300 "Cancelled"].

Definition files : Files :=
  {| customers_csv := Some [];
     products_csv := Some products;
     orders_csv := Some orders;
     order_items_csv := None;
     reviews_csv := None |}.

(** Three items for each of the first two orders (products 101, 105 and
    104), one for the third; then [uniform] gives 0.35, so two of the six
    purchases of customer c1 are reviewed: the first entry and the fourth. *)
Definition rng : RNG :=
  mk_rng [2; 0; 0; 0; 0; 1; 2;   2; 0; 0; 0; 2; 1; 0;   0; 0; 0;
          6755399441055744; 0; 3;
          0; 0; 6;   5000000000000000; 1; 29]%N.

Definition after : Files := Eval vm_compute in fst (main files rng).

(** The orders with their [calculated_total], and the tape position
    after the order items and after the reviews. *)
Definition done : list (Order * amount) :=
  Eval vm_compute in
    match generate_order_items products orders rng with
    | Ok (done, _, _) => done
    | Raise _ => []
    end.

Definition rng_items : RNG := {| tape := tape rng; cursor := 17 |}.

Definition rng_reviews : RNG := {| tape := tape rng; cursor := 26 |}.

Definition order_items : list OrderItem :=
  Eval vm_compute in
    match order_items_csv after with Some l => l | None => [] end.

Definition emitted : list Review :=
  Eval vm_compute in
    match reviews_csv after with Some l => l | None => [] end.

(** The two reviews the run writes. *)
Definition review1 : Review :=
  {| review_id := 6001; r_product_id := "101"; r_customer_id := "c1";
     rating := 5;
     review_text := "Excellent product! Exceeded my expectations.";
     review_date := 739259 |}.

Definition review2 : Review :=
  {| review_id := 6002; r_product_id := "101"; r_customer_id := "c1";
     rating := 4;
     review_text := "Good quality, works as expected.";
     review_date := 739313 |}.

End Demo.

(* ------------------------------------------------------------------ *)
(** ** One customer more than the cap *)

(** 201 customers with one delivered order each: one more than the cap. *)
Module Crowd.

Definition name (i : nat) : string := NilZero.string_of_uint (Nat.to_uint i).

Definition orders : list Order :=
  map (fun i => Demo.mk_order (name i) (name i) 739252 "Delivered")
      (seq 1 201).

Definition files : Files :=
  {| customers_csv := Some [];
     products_csv := Some Demo.products;
     orders_csv := Some orders;
     order_items_csv := None;
     reviews_csv := None |}.

(** Every draw is 0: one item per order, one review per customer. *)
Definition rng : RNG := {| tape := fun _ => 0%N; cursor := 0 |}.

Definition after : Files := Eval vm_compute in fst (main files rng).

Definition emitted : list Review :=
  Eval vm_compute in
    match reviews_csv after with Some l => l | None => [] end.

(** The state of the review loops once the cap is reached. *)
Definition full : ReviewState :=
  {| reviews := emitted; next_review_id := 6201; review_count := 200 |}.

End Crowd.

(* ------------------------------------------------------------------ *)
(** ** Prices outside the column type *)

(** Two catalogs outside [DECIMAL(10, 2)]: prices of 0.004, and prices
    of 100000000000000.01. *)
Module Drift.

Local Open Scope string_scope.

Definition order : Order := Demo.mk_order "1" "c1" 739252 "Delivered".

Definition mk_product (id : string) (digits : N) (scale : nat) : Product :=
  {| product_id := id; product_name := ""; category := ""; brand := "";
     price := {| dec_digits := digits; dec_scale := scale |};
     stock_quantity := ""; supplier_id := "" |}.

Definition mills : list Product :=
  [mk_product "1" 4 3; mk_product "2" 4 3].

Definition fortunes : list Product :=
  [mk_product "1" 10000000000000001 2; mk_product "2" 10000000000000001 2].

(** Two items, quantity 1 each. *)
Definition rng : RNG := Demo.mk_rng [1]%N.

Definition rng_after : RNG := {| tape := tape rng; cursor := 5 |}.

Definition mill_items : list OrderItem :=
  [{| order_item_id := 5001; oi_order_id := "1"; oi_product_id := "1";
      quantity := 1; unit_price := Cents 0; subtotal := Cents 0 |};
   {| order_item_id := 5002; oi_order_id := "1"; oi_product_id := "2";
      quantity := 1; unit_price := Cents 0; subtotal := Cents 0 |}].

Definition fortune_items : list OrderItem :=
  [{| order_item_id := 5001; oi_order_id := "1"; oi_product_id := "1";
      quantity := 1; unit_price := Cents 10000000000000002;
      subtotal := Cents 10000000000000002 |};
   {| order_item_id := 5002; oi_order_id := "1"; oi_product_id := "2";
      quantity := 1; unit_price := Cents 10000000000000002;
      subtotal := Cents 10000000000000002 |}].

End Drift.

(* ------------------------------------------------------------------ *)
(** ** The last day of the calendar *)

(** An order placed on the last day of the calendar, 9999-12-31. *)
Module Edge.

Definition files : Files :=
  {| customers_csv := Some [];
     products_csv := Some Demo.products;
     orders_csv := Some [Demo.mk_order "1" "c1" max_ordinal "Delivered"];
     order_items_csv := None;
     reviews_csv := None |}.

Definition after : Files := Eval vm_compute in fst (main files Demo.rng).

End Edge.

(* ------------------------------------------------------------------ *)
(** ** Missing and empty files *)

(** Inputs with a gap: no [customers.csv], no product, no order. *)
Module Gaps.

Local Open Scope string_scope.





End Gaps.

(* ------------------------------------------------------------------ *)
(** ** Cells that do not parse *)

(** The small run with a price [float] rejects, and with an order date
    [strptime] rejects. *)
Module Typos.

Local Open Scope string_scope.

Definition misprice (text : string) (p : ProductRow) : ProductRow :=
  {| t_product_id := t_product_id p;
     t_product_name := t_product_name p;
     t_category := t_category p;
     t_brand := t_brand p;
     t_price := Malformed text;
     t_stock_quantity := t_stock_quantity p;
     t_supplier_id := t_supplier_id p |}.

Definition misdate (text : string) (o : OrderRow) : OrderRow :=
  {| t_order_id := t_order_id o;
     t_customer_id := t_customer_id o;
     t_order_date := Malformed text;
     t_order_status := t_order_status o;
     t_total_amount := t_total_amount o;
     t_shipping_address := t_shipping_address o;
     t_payment_method := t_payment_method o |}.

(** Product 101 priced "10,00". *)
Definition products : list ProductRow :=
  match map row_of_product Demo.products with
  | p :: rest => misprice "10,00" p :: rest
  | [] => []
  end.

(** Order 1 dated "01/01/2025". *)
Definition orders : list OrderRow :=
  match map row_of_order Demo.orders with
  | o :: rest => misdate "01/01/2025" o :: rest
  | [] => []
  end.

Definition bad_price : Disk :=
  {| d_customers := Some [];
     d_products := Some products;
     d_orders := Some (map row_of_order Demo.orders);
     d_order_items := None;
     d_reviews := None |}.



(** The state in which the review loops start. *)
Definition start : ReviewState :=
  {| reviews := []; next_review_id := 6001; review_count := 0 |}.

End Typos.

(* ================================================================== *)
(** * Further vocabulary *)

(* ------------------------------------------------------------------ *)
(** ** Rows that refer to rows *)

(** [item] names an order of [orders] and a product of [products]. *)
Definition item_refers (products : list Product) (orders : list Order)
    (item : OrderItem) : Prop :=
  (exists order, In order orders /\ oi_order_id item = order_id order) /\
  (exists product,
     In product products /\ oi_product_id item = product_id product).

(** [item] was drawn for a product of [products], and carries that
    product's price and the quantity's multiple of it, in cents. *)
Definition item_priced (products : list Product) (item : OrderItem) : Prop :=
  exists product,
    In product products /\
    oi_product_id item = product_id product /\
    unit_price item = Cents (Z.of_N (dec_digits (price product))) /\
    subtotal item
    = Cents (quantity item * Z.of_N (dec_digits (price product))).

(* ------------------------------------------------------------------ *)
(** ** Shares of a customer's purchases *)

(** [n] lies between a fifth and two fifths of [len], rounded down, and
    is at least 1. *)
Definition share (len n : Z) : Prop :=
  Z.max 1 (len / 5) <= n <= Z.max 1 (2 * len / 5).

(* ------------------------------------------------------------------ *)
(** ** Reviews, customer by customer *)

(** [r] carries one of the five ratings and a text of that rating's
    pool. *)
Definition well_rated (r : Review) : Prop :=
  1 <= rating r <= 5 /\ In (review_text r) (review_texts (rating r)).

(** [block] holds the reviews of one entry of [customer_product_map]:
    one review for each of some purchases at pairwise distinct positions
    of the customer's list, and at most two fifths of the list (or one). *)
Definition block_ok (entry : string * list Purchase) (block : list Review)
    : Prop :=
  (exists sel,
     selection (snd entry) sel /\
     Forall2 (fun p r => review_from (fst entry) p r /\ well_rated r)
             sel block) /\
  (Z.of_nat (length (snd entry)) <= 2 ^ 31 ->
   Z.of_nat (length block)
   <= Z.max 1 (2 * Z.of_nat (length (snd entry)) / 5)).

(** [block] holds all the reviews drawn for the entry: at least one, and
    at least a fifth of the customer's list. *)
Definition block_full (entry : string * list Purchase) (block : list Review)
    : Prop :=
  snd entry <> [] ->
  (1 <= length block)%nat /\
  (Z.of_nat (length (snd entry)) <= 2 ^ 31 ->
   Z.max 1 (Z.of_nat (length (snd entry)) / 5) <= Z.of_nat (length block)).

(** The script resolves [item] to a Delivered or Shipped order. *)
Definition reviewable (orders : list Order) (item : OrderItem) : bool :=
  match find (fun o => String.eqb (order_id o) (oi_order_id item)) orders with
  | Some order => fulfilled order
  | None => false
  end.

(** The purchases of [item] are filed under its customer. *)
Definition filed (orders : list Order) (m : PurchaseMap) (item : OrderItem)
    : Prop :=
  forall order,
    find (fun o => String.eqb (order_id o) (oi_order_id item)) orders
      = Some order ->
    fulfilled order = true ->
    exists l,
      In (customer_id order, l) m /\
      In {| p_product_id := oi_product_id item;
            p_order_date := order_date order |} l.

(** [r] names a product of [products] and the customer of an order of
    [orders]. *)
Definition review_refers (products : list Product) (orders : list Order)
    (r : Review) : Prop :=
  (exists product,
     In product products /\ r_product_id r = product_id product) /\
  (exists order, In order orders /\ r_customer_id r = customer_id order).

(* ================================================================== *)
(** * Properties *)

(* ------------------------------------------------------------------ *)
(** ** Reading the monad *)

Lemma bind_ok {A B} (m : Gen A) (k : A -> Gen B) g b g' :
  bind m k g = Ok (b, g') ->
  exists a g1, m g = Ok (a, g1) /\ k a g1 = Ok (b, g').
Proof.
  unfold bind. destruct (m g) as [[a g1]|e]; [|discriminate].
  intros H. now exists a, g1.
Qed.


Lemma ret_ok {A} (a b : A) g g' : ret a g = Ok (b, g') -> a = b /\ g = g'.
Proof. unfold ret. intros H. now inversion H. Qed.

Ltac inv_gen :=
  repeat match goal with
  | H : bind _ _ _ = Ok _ |- _ =>
      let a := fresh "a" in let g := fresh "g" in
      let H1 := fresh "Hm" in let H2 := fresh "Hk" in
      apply bind_ok in H; destruct H as (a & g & H1 & H2)
  | H : ret _ _ = Ok _ |- _ =>
      let E1 := fresh "E" in let E2 := fresh "E" in
      apply ret_ok in H; destruct H as [E1 E2]
  | H : raise _ _ = Ok _ |- _ => discriminate H
  end.

Lemma randbelow_ok n g v g' :
  randbelow n g = Ok (v, g') -> 0 < n -> 0 <= v < n.
Proof.
  unfold randbelow. destruct (draw g) as [r g1]. intros H Hn.
  inversion H; subst. now apply Z.mod_pos_bound.
Qed.

Lemma randbelow_total n g : exists v g', randbelow n g = Ok (v, g').
Proof. unfold randbelow. destruct (draw g) as [r g1]. eauto. Qed.

Lemma randint_ok a b g v g' :
  randint a b g = Ok (v, g') -> a <= b -> a <= v <= b.
Proof.
  unfold randint. intros H Hab. inv_gen. subst.
  apply randbelow_ok in Hm; lia.
Qed.

Lemma randint_total a b g : exists v g', randint a b g = Ok (v, g').
Proof.
  unfold randint, bind.
  destruct (randbelow_total (b - a + 1) g) as (v & g' & E).
  rewrite E. unfold ret. eauto.
Qed.

(* ------------------------------------------------------------------ *)
(** ** [random.sample] *)

Lemma set_nth_length {A} j (x : A) pool :
  length (set_nth j x pool) = length pool.
Proof.
  revert j. induction pool as [|h t IH]; intros [|j]; simpl; auto.
Qed.

Lemma set_nth_app_l {A} j (x : A) l1 l2 :
  (j < length l1)%nat -> set_nth j x (l1 ++ l2) = set_nth j x l1 ++ l2.
Proof.
  revert j. induction l1 as [|h t IH]; intros [|j] Hj; simpl in *;
    try lia; auto.
  rewrite IH by lia. reflexivity.
Qed.

Lemma set_nth_same {A} j (x : A) pool :
  nth_error pool j = Some x -> set_nth j x pool = pool.
Proof.
  revert j. induction pool as [|h t IH]; intros [|j] H; simpl in *;
    try discriminate.
  - now inversion H.
  - now rewrite IH.
Qed.

Lemma set_nth_perm {A} j (x l : A) pool :
  nth_error pool j = Some x ->
  Permutation (x :: set_nth j l pool) (l :: pool).
Proof.
  revert j. induction pool as [|h t IH]; intros [|j] H; simpl in *;
    try discriminate.
  - inversion H; subst. apply perm_swap.
  - rewrite perm_swap. rewrite (IH j H). apply perm_swap.
Qed.

Lemma set_nth_map {A B} (f : A -> B) j x pool :
  set_nth j (f x) (map f pool) = map f (set_nth j x pool).
Proof.
  revert j. induction pool as [|h t IH]; intros [|j]; simpl; auto.
  now rewrite IH.
Qed.

Lemma vacate_snoc {A} j (l : A) init :
  vacate j (init ++ [l]) = firstn (length init) (set_nth j l (init ++ [l])).
Proof.
  unfold vacate. rewrite rev_app_distr. simpl.
  rewrite length_app. simpl. f_equal. lia.
Qed.

Lemma vacate_perm {A} j (x : A) pool :
  nth_error pool j = Some x -> Permutation (x :: vacate j pool) pool.
Proof.
  intros H.
  destruct (exists_last (l := pool)) as (init & l & ->).
  { intros ->. destruct j; discriminate. }
  rewrite vacate_snoc.
  assert (Hj : (j < length (init ++ [l]))%nat)
    by (apply nth_error_Some; congruence).
  rewrite length_app in Hj. simpl in Hj.
  destruct (Nat.eq_dec j (length init)) as [->|Hne].
  - assert (x = l) as ->.
    { rewrite nth_error_app2 in H by lia. rewrite Nat.sub_diag in H.
      simpl in H. now inversion H. }
    rewrite set_nth_same by exact H.
    rewrite firstn_app, Nat.sub_diag, firstn_all. simpl. rewrite app_nil_r.
    apply Permutation_cons_append.
  - rewrite set_nth_app_l by lia.
    rewrite firstn_app, set_nth_length, Nat.sub_diag. simpl.
    rewrite app_nil_r, firstn_all2 by (rewrite set_nth_length; lia).
    rewrite nth_error_app1 in H by lia.
    rewrite (set_nth_perm j x l init H).
    apply Permutation_cons_append.
Qed.

Lemma vacate_length {A} j (x : A) pool :
  nth_error pool j = Some x -> S (length (vacate j pool)) = length pool.
Proof.
  intros H. exact (Permutation_length (vacate_perm j x pool H)).
Qed.

Lemma vacate_map {A B} (f : A -> B) j pool :
  vacate j (map f pool) = map f (vacate j pool).
Proof.
  unfold vacate. rewrite <- map_rev.
  destruct (rev pool) as [|l r]; simpl; auto.
  rewrite set_nth_map, firstn_map, length_map. reflexivity.
Qed.

(** The selection does not look at the entries: it commutes with [map]. *)
Lemma sample_pool_map {A B} (f : A -> B) pool k g :
  sample_pool (map f pool) k g =
  match sample_pool pool k g with
  | Ok (res, g') => Ok (map f res, g')
  | Raise e => Raise e
  end.
Proof.
  revert pool g. induction k as [|k IH]; intros pool g; simpl.
  - reflexivity.
  - unfold bind. rewrite length_map.
    destruct (randbelow _ g) as [[j g1]|e]; [|reflexivity].
    rewrite nth_error_map.
    destruct (nth_error pool (Z.to_nat j)) as [x|]; simpl; [|reflexivity].
    rewrite vacate_map, IH.
    destruct (sample_pool _ k g1) as [[res g2]|e]; reflexivity.
Qed.

Lemma sample_pool_perm {A} (pool : list A) k g res g' :
  sample_pool pool k g = Ok (res, g') ->
  length res = k /\ exists rest, Permutation (res ++ rest) pool.
Proof.
  revert pool g res g'. induction k as [|k IH]; intros pool g res g' H;
    simpl in H.
  - inv_gen. subst. split; [reflexivity|]. exists pool. reflexivity.
  - inv_gen.
    destruct (nth_error pool (Z.to_nat a)) as [x|] eqn:Hx; [|discriminate].
    inv_gen. subst.
    destruct (IH _ _ _ _ Hm0) as [Hlen (rest & Hp)].
    split; [simpl; congruence|]. exists rest. simpl.
    rewrite Hp. now apply vacate_perm.
Qed.

Lemma sample_pool_total {A} (pool : list A) k g :
  (k <= length pool)%nat -> exists res g', sample_pool pool k g = Ok (res, g').
Proof.
  revert pool g. induction k as [|k IH]; intros pool g Hk; simpl.
  - unfold ret. eauto.
  - unfold bind.
    destruct (randbelow_total (Z.of_nat (length pool)) g) as (j & g1 & Ej).
    rewrite Ej. apply randbelow_ok in Ej; [|lia].
    destruct (nth_error pool (Z.to_nat j)) as [x|] eqn:Hx.
    + destruct (IH (vacate (Z.to_nat j) pool) g1) as (res & g2 & E).
      { pose proof (vacate_length _ _ _ Hx). lia. }
      rewrite E. unfold ret. eauto.
    + apply nth_error_None in Hx. lia.
Qed.

Lemma combine_seq_fst {A} (l : list A) s :
  map fst (combine (seq s (length l)) l) = seq s (length l).
Proof.
  revert s. induction l as [|h t IH]; intros s; simpl; auto.
  now rewrite IH.
Qed.

Lemma combine_seq_snd {A} (l : list A) s :
  map snd (combine (seq s (length l)) l) = l.
Proof.
  revert s. induction l as [|h t IH]; intros s; simpl; auto.
  now rewrite IH.
Qed.

Lemma combine_seq_In {A} (l : list A) s i x :
  In (i, x) (combine (seq s (length l)) l) ->
  (s <= i)%nat /\ nth_error l (i - s) = Some x.
Proof.
  revert s. induction l as [|h t IH]; intros s H; simpl in H; [tauto|].
  destruct H as [H|H].
  - inversion H; subst. rewrite Nat.sub_diag. auto.
  - apply IH in H. destruct H as [Hs Hn]. split; [lia|].
    replace (i - s)%nat with (S (i - S s)) by lia. exact Hn.
Qed.

Lemma sample_pool_selection {A} (pool : list A) k g sel g' :
  sample_pool pool k g = Ok (sel, g') ->
  length sel = k /\ selection pool sel /\ (forall x, In x sel -> In x pool).
Proof.
  intros H.
  destruct (sample_pool_perm _ _ _ _ _ H) as [Hlen (rest & Hp)].
  split; [exact Hlen|]. split.
  - set (pool0 := combine (seq 0 (length pool)) pool).
    assert (E : pool = map snd pool0) by (symmetry; apply combine_seq_snd).
    rewrite E, sample_pool_map in H.
    destruct (sample_pool pool0 k g) as [[res0 g0]|e] eqn:H0; [|discriminate].
    inversion H; subst sel g0. clear H.
    destruct (sample_pool_perm _ _ _ _ _ H0) as [_ (rest0 & Hp0)].
    exists (map fst res0). split.
    + assert (N : NoDup (map fst (res0 ++ rest0))).
      { eapply Permutation_NoDup.
        - apply Permutation_map. symmetry. exact Hp0.
        - unfold pool0. rewrite combine_seq_fst. apply seq_NoDup. }
      rewrite map_app in N. eapply NoDup_app_remove_r. exact N.
    + assert (F : Forall (fun ix => nth_error pool (fst ix) = Some (snd ix))
                         res0).
      { apply Forall_forall. intros [i x] Hin. simpl.
        assert (Hin0 : In (i, x) pool0).
        { eapply Permutation_in; [exact Hp0|]. apply in_or_app. now left. }
        apply combine_seq_In in Hin0. destruct Hin0 as [_ Hn].
        now rewrite Nat.sub_0_r in Hn. }
      clear -F. induction F; simpl; constructor; auto.
  - intros x Hx. eapply Permutation_in; [exact Hp|].
    apply in_or_app. now left.
Qed.

Lemma sample_ok {A} (population : list A) k g sel g' :
  sample population k g = Ok (sel, g') ->
  0 <= k <= Z.of_nat (length population) /\
  Z.of_nat (length sel) = k /\
  selection population sel /\
  (forall x, In x sel -> In x population).
Proof.
  unfold sample. intros H.
  destruct (k <? 0) eqn:E1; [discriminate|].
  destruct (Z.of_nat (length population) <? k) eqn:E2; [discriminate|].
  simpl in H. apply Z.ltb_ge in E1, E2.
  apply sample_pool_selection in H. destruct H as (Hlen & Hsel & Hin).
  repeat split; try lia; auto.
Qed.

Lemma sample_total {A} (population : list A) k g :
  0 <= k <= Z.of_nat (length population) ->
  exists sel g', sample population k g = Ok (sel, g').
Proof.
  intros Hk. unfold sample.
  destruct (k <? 0) eqn:E1; [apply Z.ltb_lt in E1; lia|].
  destruct (Z.of_nat (length population) <? k) eqn:E2;
    [apply Z.ltb_lt in E2; lia|].
  simpl. apply sample_pool_total. lia.
Qed.


(* ------------------------------------------------------------------ *)
(** ** What one order contributes *)

Lemma make_items_length order id lines :
  length (make_items order id lines) = length lines.
Proof.
  revert id. induction lines as [|l t IH]; intros id; simpl; auto.
Qed.

Lemma item_loop_ok order sel total order_items id g total' items' id' g' :
  item_loop order sel total order_items id g = Ok (total', items', id', g') ->
  exists qs : list Z,
    length qs = length sel /\
    Forall (fun q => 1 <= q <= 3) qs /\
    items' = order_items ++ make_items order id (combine sel qs) /\
    id' = id + Z.of_nat (length sel) /\
    total' = accumulate total (combine sel qs).
Proof.
  revert total order_items id g.
  induction sel as [|p sel IH]; intros total order_items id g H; simpl in H.
  - inv_gen. inversion E; subst. exists []. simpl.
    rewrite app_nil_r, Z.add_0_r. auto.
  - inv_gen. apply randint_ok in Hm; [|lia].
    apply IH in Hk. destruct Hk as (qs & Hlen & Hq & Hi & Hid & Ht).
    exists (a :: qs). simpl. repeat split.
    + congruence.
    + constructor; auto.
    + rewrite Hi, <- app_assoc. reflexivity.
    + lia.
    + exact Ht.
Qed.

Lemma item_loop_total order sel total order_items id g :
  exists r g', item_loop order sel total order_items id g = Ok (r, g').
Proof.
  revert total order_items id g.
  induction sel as [|p sel IH]; intros total order_items id g; simpl.
  - unfold ret. eauto.
  - unfold bind. destruct (randint_total 1 3 g) as (q & g1 & E).
    rewrite E. apply IH.
Qed.

Lemma num_items_ok order g n g' :
  (if String.eqb (order_status order) "Cancelled"
   then randint 1 3 else randint 1 5) g = Ok (n, g') ->
  1 <= n <= max_items order.
Proof.
  unfold max_items.
  destruct (String.eqb _ _); intros H; apply randint_ok in H; lia.
Qed.

Lemma order_body_ok products order order_items id g ct items' id' g' :
  order_body products order order_items id g = Ok (ct, items', id', g') ->
  exists chunk,
    order_chunk products order id ct chunk /\
    items' = order_items ++ chunk /\
    id' = id + Z.of_nat (length chunk).
Proof.
  unfold order_body. intros H. inv_gen.
  destruct a1 as [[total its] nid]. inv_gen. inversion E; subst.
  apply num_items_ok in Hm.
  apply sample_ok in Hm0. destruct Hm0 as (_ & Hlen & Hsel & _).
  apply item_loop_ok in Hm1.
  destruct Hm1 as (qs & Hq & Hr & Hi & Hid & Ht).
  exists (make_items order id (combine a0 qs)).
  assert (Hc : length (combine a0 qs) = length a0)
    by (rewrite length_combine; lia).
  assert (Hf : map fst (combine a0 qs) = a0).
  { clear -Hq. revert qs Hq. induction a0 as [|p t IH]; intros [|q qs] Hq;
      simpl in *; try discriminate; auto. f_equal. apply IH. lia. }
  split; [|split].
  - exists (combine a0 qs). rewrite Hf, Hc.
    split; [exact Hsel|]. split; [|split; [lia|split; [reflexivity|now subst]]].
    clear -Hr Hq. revert a0 Hq.
    induction Hr as [|q qs Hq1 Hr IH]; intros [|p t] Hq; simpl in *;
      try discriminate; constructor; auto.
  - exact Hi.
  - rewrite make_items_length, Hc. exact Hid.
Qed.

Lemma order_loop_ok products orders order_items id g done items' id' g' :
  order_loop products orders order_items id g = Ok (done, items', id', g') ->
  exists chunks,
    chunked products id done chunks /\
    map fst done = orders /\
    items' = order_items ++ concat chunks /\
    id' = id + Z.of_nat (length (concat chunks)).
Proof.
  revert order_items id g done items' id' g'.
  induction orders as [|o rest IH];
    intros order_items id g done items' id' g' H; simpl in H.
  - inv_gen. inversion E; subst. exists []. simpl.
    rewrite app_nil_r, Z.add_0_r. repeat split; auto. constructor.
  - inv_gen. destruct a as [[ct its] nid]. inv_gen.
    destruct a as [[done1 its1] nid1]. inv_gen. inversion E; subst.
    apply order_body_ok in Hm. destruct Hm as (chunk & Hc & Hi & Hid).
    apply IH in Hm0. destruct Hm0 as (chunks & Hch & Hf & Hi' & Hid').
    exists (chunk :: chunks). simpl. repeat split.
    + constructor; auto. now rewrite <- Hid.
    + now rewrite Hf.
    + rewrite Hi', Hi, <- app_assoc. reflexivity.
    + rewrite Hid', Hid, length_app. lia.
Qed.

Lemma generate_order_items_ok products orders g done order_items g' :
  generate_order_items products orders g = Ok (done, order_items, g') ->
  exists chunks,
    chunked products 5001 done chunks /\
    map fst done = orders /\
    order_items = concat chunks.
Proof.
  unfold generate_order_items. intros H. inv_gen.
  destruct a as [[done1 its] nid]. inv_gen. inversion E; subst.
  apply order_loop_ok in Hm. destruct Hm as (chunks & Hc & Hf & Hi & _).
  exists chunks. auto.
Qed.

Lemma order_body_total products order order_items id g :
  5 <= Z.of_nat (length products) ->
  exists r g', order_body products order order_items id g = Ok (r, g').
Proof.
  intros Hp. unfold order_body, bind.
  destruct ((if String.eqb (order_status order) "Cancelled"
             then randint 1 3 else randint 1 5) g) as [[n g1]|e] eqn:En.
  2:{ destruct (String.eqb _ _);
        [destruct (randint_total 1 3 g) as (v & g' & E)
        |destruct (randint_total 1 5 g) as (v & g' & E)]; congruence. }
  pose proof (num_items_ok _ _ _ _ En) as Hn.
  assert (Hm : max_items order <= 5)
    by (unfold max_items; destruct (String.eqb _ _); lia).
  destruct (sample_total products n g1) as (sel & g2 & Es); [lia|].
  rewrite Es.
  destruct (item_loop_total order sel (of_int 0) order_items id g2)
    as ([[t its] nid] & g3 & Ei).
  rewrite Ei. unfold ret. eauto.
Qed.

Lemma order_loop_total products orders order_items id g :
  5 <= Z.of_nat (length products) ->
  exists r g', order_loop products orders order_items id g = Ok (r, g').
Proof.
  intros Hp. revert order_items id g.
  induction orders as [|o rest IH]; intros order_items id g; simpl.
  - unfold ret. eauto.
  - unfold bind.
    destruct (order_body_total products o order_items id g Hp)
      as ([[ct its] nid] & g1 & E).
    rewrite E.
    destruct (IH its nid g1) as ([[done its'] nid'] & g2 & E').
    rewrite E'. unfold ret. eauto.
Qed.

(* ------------------------------------------------------------------ *)
(** ** Identifier sequences *)

Lemma zrange_cons start n :
  zrange start (S n) = start :: zrange (start + 1) n.
Proof.
  unfold zrange. simpl. rewrite Z.add_0_r. f_equal.
  rewrite <- seq_shift, map_map. apply map_ext. intros i. lia.
Qed.

Lemma zrange_app start n m :
  zrange start (n + m) = zrange start n ++ zrange (start + Z.of_nat n) m.
Proof.
  revert start. induction n as [|n IH]; intros start.
  - simpl. now rewrite Z.add_0_r.
  - change (S n + m)%nat with (S (n + m)). rewrite !zrange_cons, IH.
    simpl. do 3 f_equal. lia.
Qed.

Lemma zrange_In start n x : In x (zrange start n) -> start <= x.
Proof.
  unfold zrange. rewrite in_map_iff. intros (i & <- & _). lia.
Qed.

Lemma zrange_NoDup start n : NoDup (zrange start n).
Proof.
  revert start. induction n as [|n IH]; intros start.
  - constructor.
  - rewrite zrange_cons. constructor; [|apply IH].
    intros H. apply zrange_In in H. lia.
Qed.

Lemma make_items_ids order id lines :
  map order_item_id (make_items order id lines) = zrange id (length lines).
Proof.
  revert id. induction lines as [|l t IH]; intros id; simpl.
  - reflexivity.
  - rewrite zrange_cons, IH. reflexivity.
Qed.

Lemma chunked_ids products id done chunks :
  chunked products id done chunks ->
  map order_item_id (concat chunks) = zrange id (length (concat chunks)).
Proof.
  induction 1 as [id|id order ct chunk done chunks Hc Hch IH]; simpl.
  - reflexivity.
  - rewrite map_app, length_app, zrange_app, IH. f_equal.
    destruct Hc as (lines & _ & _ & _ & -> & _).
    rewrite make_items_ids, make_items_length. reflexivity.
Qed.

(* ------------------------------------------------------------------ *)
(** ** What the review loops append *)

Lemma appended_refl st : appended st st [].
Proof.
  unfold appended. simpl. rewrite app_nil_r, !Z.add_0_r. auto.
Qed.

Lemma appended_trans st1 st2 st3 l1 l2 :
  appended st1 st2 l1 -> appended st2 st3 l2 -> appended st1 st3 (l1 ++ l2).
Proof.
  intros (R1 & I1 & C1 & M1 & B1) (R2 & I2 & C2 & M2 & B2).
  unfold appended. rewrite length_app, map_app, zrange_app.
  repeat split.
  - rewrite R2, R1, app_assoc. reflexivity.
  - lia.
  - lia.
  - rewrite M1, M2, I1. reflexivity.
  - auto.
Qed.

Lemma add_days_ok date n g v g' :
  add_days date n g = Ok (v, g') -> v = date + n.
Proof.
  unfold add_days. destruct (max_ordinal <? date + n); [discriminate|].
  intros H. now inv_gen.
Qed.

Lemma emit_loop_ok cid rp st g st' g' :
  emit_loop cid rp st g = Ok (st', g') ->
  exists news,
    appended st st' news /\
    Forall (fun r => exists p, In p rp /\ review_from cid p r) news.
Proof.
  revert st g. induction rp as [|p rp IH]; intros st g H; simpl in H.
  - inv_gen. subst. exists []. split; [apply appended_refl|constructor].
  - destruct (200 <=? review_count st) eqn:Ecap.
    + inv_gen. subst. exists []. split; [apply appended_refl|constructor].
    + apply Z.leb_gt in Ecap.
      apply bind_ok in H as (stars & g1 & _ & H).
      apply bind_ok in H as (text & g2 & _ & H).
      apply bind_ok in H as (days & g3 & Hdays & H).
      apply bind_ok in H as (date & g4 & Hdate & H).
      apply randint_ok in Hdays; [|lia]. apply add_days_ok in Hdate.
      apply IH in H. destruct H as (news & Ha & Hf).
      match type of Ha with appended ?s _ _ => set (st1 := s) in * end.
      match eval unfold st1 in st1 with
      | context [(reviews st ++ [?r])%list] => set (rv := r) in *
      end.
      exists (rv :: news). split.
      * change (rv :: news) with ([rv] ++ news).
        eapply appended_trans; [|exact Ha].
        unfold appended, st1. simpl. repeat split; auto.
        -- unfold zrange. simpl. now rewrite Z.add_0_r.
        -- lia.
      * constructor.
        -- exists p. split; [now left|].
           unfold review_from, rv. simpl. repeat split. eauto.
        -- eapply Forall_impl; [|exact Hf]. intros r (p' & Hin & Hr).
           exists p'. split; [now right|exact Hr].
Qed.

Lemma customer_loop_ok m st g st' g' :
  customer_loop m st g = Ok (st', g') ->
  exists news,
    appended st st' news /\
    Forall (fun r => exists cid l p,
              In (cid, l) m /\ In p l /\ review_from cid p r) news.
Proof.
  revert st g. induction m as [|[cid l] m IH]; intros st g H; simpl in H.
  - inv_gen. subst. exists []. split; [apply appended_refl|constructor].
  - destruct (200 <=? review_count st) eqn:Ecap.
    + inv_gen. subst. exists []. split; [apply appended_refl|constructor].
    + apply bind_ok in H as (n & g1 & _ & H).
      apply bind_ok in H as (rp & g2 & Hrp & H).
      apply bind_ok in H as (st1 & g3 & Hst1 & H).
      apply sample_ok in Hrp. destruct Hrp as (_ & _ & _ & Hin).
      apply emit_loop_ok in Hst1. destruct Hst1 as (news1 & Ha1 & Hf1).
      apply IH in H. destruct H as (news2 & Ha2 & Hf2).
      exists (news1 ++ news2). split.
      * eapply appended_trans; eassumption.
      * apply Forall_app. split.
        -- eapply Forall_impl; [|exact Hf1]. intros r (p & Hp & Hr).
           exists cid, l, p. split; [now left|]. split; auto.
        -- eapply Forall_impl; [|exact Hf2].
           intros r (cid' & l' & p & Hm & Hp & Hr).
           exists cid', l', p. split; [now right|]. split; auto.
Qed.

Lemma map_append_In cid p m cid' l' p' :
  In (cid', l') (map_append cid p m) -> In p' l' ->
  (cid' = cid /\ p' = p) \/ exists l0, In (cid', l0) m /\ In p' l0.
Proof.
  induction m as [|[k l] m IH]; simpl; intros Hm Hp.
  - destruct Hm as [Hm|[]]. inversion Hm; subst.
    destruct Hp as [<-|[]]. now left.
  - destruct (String.eqb k cid) eqn:Ek.
    + apply String.eqb_eq in Ek. subst k.
      destruct Hm as [Hm|Hm].
      * inversion Hm; subst. apply in_app_or in Hp.
        destruct Hp as [Hp|[<-|[]]]; [right|now left].
        exists l. auto.
      * right. exists l'. auto.
    + destruct Hm as [Hm|Hm].
      * inversion Hm; subst. right. exists l'. auto.
      * destruct (IH Hm Hp) as [H|(l0 & H1 & H2)]; [now left|].
        right. exists l0. auto.
Qed.

Lemma customer_product_map_sound orders all items m :
  incl items all -> map_sound orders all m ->
  map_sound orders all (fold_left (map_step orders) items m).
Proof.
  revert m. induction items as [|item items IH]; intros m Hincl Hm; simpl.
  - exact Hm.
  - apply IH; [intros x Hx; apply Hincl; now right|].
    unfold map_step.
    destruct (find _ orders) as [order|] eqn:Ef; [|exact Hm].
    destruct (fulfilled order) eqn:Eful; [|exact Hm].
    intros cid l p Hin Hp.
    destruct (map_append_In _ _ _ _ _ _ Hin Hp) as [[-> ->]|(l0 & H1 & H2)].
    + exists item, order. simpl. repeat split; auto.
      apply Hincl. now left.
    + eapply Hm; eassumption.
Qed.

Lemma generate_reviews_ok orders order_items g rs g' :
  generate_reviews orders order_items g = Ok (rs, g') ->
  map review_id rs = zrange 6001 (length rs) /\
  Z.of_nat (length rs) <= 200 /\
  Forall (fun r => exists cid p,
            purchase_of orders order_items cid p /\ review_from cid p r) rs.
Proof.
  unfold generate_reviews. intros H.
  apply bind_ok in H as (st & g1 & Hst & H). apply ret_ok in H as [<- _].
  apply customer_loop_ok in Hst.
  destruct Hst as (news & (R & _ & C & M & B) & Hf).
  simpl in *. subst news. repeat split; auto.
  - lia.
  - eapply Forall_impl; [|exact Hf]. intros r (cid & l & p & Hm & Hp & Hr).
    exists cid, p. split; [|exact Hr].
    eapply (customer_product_map_sound orders order_items order_items []);
      eauto.
    + apply incl_refl.
    + intros ? ? ? [].
Qed.

(* ------------------------------------------------------------------ *)
(** ** Runs of the whole script *)

Lemma main_done fs g fs' :
  main fs g = (fs', None) ->
  exists customers products orders done order_items g1 rs g2,
    customers_csv fs = Some customers /\
    products_csv fs = Some products /\
    orders_csv fs = Some orders /\
    generate_order_items products orders g = Ok (done, order_items, g1) /\
    map fst done = orders /\
    generate_reviews orders order_items g1 = Ok (rs, g2) /\
    fs' = write_reviews rs
            (write_orders (map rewrite_order done)
               (write_order_items order_items fs)).
Proof.
  unfold main. intros H.
  destruct (customers_csv fs) as [customers|]; [|discriminate].
  destruct (products_csv fs) as [products|]; [|discriminate].
  destruct (orders_csv fs) as [orders|]; [|discriminate].
  destruct (generate_order_items products orders g)
    as [[[done order_items] g1]|e] eqn:E1; [|discriminate].
  destruct (generate_order_items_ok _ _ _ _ _ _ E1) as (_ & _ & Hf & _).
  rewrite Hf in H.
  destruct (generate_reviews orders order_items g1)
    as [[rs g2]|e] eqn:E2; [|discriminate].
  injection H as <-.
  exists customers, products, orders, done, order_items, g1, rs, g2.
  repeat split; auto.
Qed.

Lemma fulfilled_status order :
  fulfilled order = true ->
  order_status order = "Shipped"%string \/
  order_status order = "Delivered"%string.
Proof.
  unfold fulfilled. intros H. apply orb_true_iff in H.
  destruct H as [H|H]; apply String.eqb_eq in H; auto.
Qed.

(* ------------------------------------------------------------------ *)
(** ** The small run *)


(* ------------------------------------------------------------------ *)
(** ** Review eligibility, dates and identifiers *)

(** C2. Review eligibility: in a completed run every review written to
    [reviews.csv] names a customer and a product for which
    [order_items.csv] holds an item whose order (the one the script
    resolves by [order_id]) is an order of that customer with status
    Shipped or Delivered. *)
Theorem review_eligibility fs g fs' orders order_items rs :
  main fs g = (fs', None) ->
  orders_csv fs = Some orders ->
  order_items_csv fs' = Some order_items ->
  reviews_csv fs' = Some rs ->
  Forall (fun r => exists item order,
            In item order_items /\
            In order orders /\
            oi_order_id item = order_id order /\
            oi_product_id item = r_product_id r /\
            customer_id order = r_customer_id r /\
            (order_status order = "Shipped"%string \/
             order_status order = "Delivered"%string)) rs.
Proof.
  intros Hrun Ho Hi Hr.
  destruct (main_done _ _ _ Hrun)
    as (cs & ps & os & done & its & g1 & rs' & g2
        & _ & _ & Eo & _ & _ & Hrev & ->).
  simpl in Hi, Hr. rewrite Ho in Eo.
  injection Eo as <-. injection Hi as <-. injection Hr as <-.
  destruct (generate_reviews_ok _ _ _ _ _ Hrev) as (_ & _ & Hf).
  eapply Forall_impl; [|exact Hf].
  intros r (cid & p & (item & order & Hin & Hfind & Hful & Hc & Hp & _)
              & (Rc & Rp & _)).
  apply find_some in Hfind. destruct Hfind as [Hino Hid].
  apply String.eqb_eq in Hid.
  exists item, order. repeat split; auto; try congruence.
  now apply fulfilled_status.
Qed.

Lemma review_eligibility_witness :
  Forall (fun r => exists item order,
            In item Demo.order_items /\
            In order Demo.orders /\
            oi_order_id item = order_id order /\
            oi_product_id item = r_product_id r /\
            customer_id order = r_customer_id r /\
            (order_status order = "Shipped"%string \/
             order_status order = "Delivered"%string))
         Demo.emitted.
Proof.
  apply (review_eligibility Demo.files Demo.rng Demo.after);
    vm_compute; reflexivity.
Defined.

(** C5. Review date ordering: in a completed run every review's
    [review_date] is the [order_date] of its triggering order (the
    fulfilled order of that customer whose item put the product into the
    customer's purchases) plus a whole number of days between 1 and 30:
    strictly later, and by at most 30 days. *)
Theorem review_date_ordering fs g fs' orders order_items rs :
  main fs g = (fs', None) ->
  orders_csv fs = Some orders ->
  order_items_csv fs' = Some order_items ->
  reviews_csv fs' = Some rs ->
  Forall (fun r => exists item order days,
            In item order_items /\
            find (fun o => String.eqb (order_id o) (oi_order_id item)) orders
              = Some order /\
            oi_product_id item = r_product_id r /\
            customer_id order = r_customer_id r /\
            1 <= days <= 30 /\
            review_date r = order_date order + days /\
            order_date order < review_date r <= order_date order + 30) rs.
Proof.
  intros Hrun Ho Hi Hr.
  destruct (main_done _ _ _ Hrun)
    as (cs & ps & os & done & its & g1 & rs' & g2
        & _ & _ & Eo & _ & _ & Hrev & ->).
  simpl in Hi, Hr. rewrite Ho in Eo.
  injection Eo as <-. injection Hi as <-. injection Hr as <-.
  destruct (generate_reviews_ok _ _ _ _ _ Hrev) as (_ & _ & Hf).
  eapply Forall_impl; [|exact Hf].
  intros r (cid & p & (item & order & Hin & Hfind & _ & Hc & Hp & Hd)
              & (Rc & Rp & days & Hdays & Rd)).
  exists item, order, days. rewrite Hd in Rd.
  repeat split; auto; try congruence; lia.
Qed.

Lemma review_date_ordering_witness :
  Forall (fun r => exists item order days,
            In item Demo.order_items /\
            find (fun o => String.eqb (order_id o) (oi_order_id item))
                 Demo.orders = Some order /\
            oi_product_id item = r_product_id r /\
            customer_id order = r_customer_id r /\
            1 <= days <= 30 /\
            review_date r = order_date order + days /\
            order_date order < review_date r <= order_date order + 30)
         Demo.emitted.
Proof.
  apply (review_date_ordering Demo.files Demo.rng Demo.after);
    vm_compute; reflexivity.
Defined.

(** C6. Identifiers: whenever the order items of a run are generated,
    their [order_item_id]s read 5001, 5002, ... in emission order across
    all orders; whenever its reviews are generated, their [review_id]s
    read 6001, 6002, ... in emission order; both sequences are therefore
    free of duplicates. *)
Theorem identifiers_contiguous :
  (forall products orders g done order_items g',
     generate_order_items products orders g = Ok (done, order_items, g') ->
     map order_item_id order_items = zrange 5001 (length order_items) /\
     NoDup (map order_item_id order_items)) /\
  (forall orders order_items g rs g',
     generate_reviews orders order_items g = Ok (rs, g') ->
     map review_id rs = zrange 6001 (length rs) /\
     NoDup (map review_id rs)).
Proof.
  split.
  - intros products orders g done order_items g' Hgen.
    destruct (generate_order_items_ok _ _ _ _ _ _ Hgen)
      as (chunks & Hc & _ & ->).
    pose proof (chunked_ids _ _ _ _ Hc) as Hitems.
    split; [exact Hitems|]. rewrite Hitems. apply zrange_NoDup.
  - intros orders order_items g rs g' Hrev.
    destruct (generate_reviews_ok _ _ _ _ _ Hrev) as (Hids & _ & _).
    split; [exact Hids|]. rewrite Hids. apply zrange_NoDup.
Qed.

Lemma identifiers_contiguous_witness :
  (map order_item_id Demo.order_items
     = zrange 5001 (length Demo.order_items) /\
   NoDup (map order_item_id Demo.order_items)) /\
  (map review_id Demo.emitted = zrange 6001 (length Demo.emitted) /\
   NoDup (map review_id Demo.emitted)).
Proof.
  destruct identifiers_contiguous as [Hitems Hreviews]. split.
  - apply (Hitems Demo.products Demo.orders Demo.rng Demo.done
             Demo.order_items Demo.rng_items).
    vm_compute. reflexivity.
  - apply (Hreviews Demo.orders Demo.order_items Demo.rng_items
             Demo.emitted Demo.rng_reviews).
    vm_compute. reflexivity.
Defined.

(* ------------------------------------------------------------------ *)
(** ** The cap of 200 reviews *)

Lemma crowd_run :
  main Crowd.files Crowd.rng = (Crowd.after, None) /\
  length Crowd.emitted = 200%nat /\
  length (customer_product_map Crowd.orders
            (match order_items_csv Crowd.after with
             | Some l => l | None => [] end)) = 201%nat.
Proof. vm_compute. auto. Qed.

(** C3. Cap enforcement: a completed run writes at most 200 reviews,
    whatever the input and the random draws; and once [review_count] has
    reached 200 both loops stop at once: the loop over customers and the
    loop over a customer's sampled purchases return the state unchanged,
    without a draw, whatever remains to be reviewed. *)
Theorem review_cap :
  (forall fs g fs' rs,
     main fs g = (fs', None) -> reviews_csv fs' = Some rs ->
     (length rs <= 200)%nat) /\
  (forall m st g,
     200 <= review_count st -> customer_loop m st g = Ok (st, g)) /\
  (forall cid reviewed_products st g,
     200 <= review_count st ->
     emit_loop cid reviewed_products st g = Ok (st, g)).
Proof.
  split; [|split].
  - intros fs g fs' rs Hrun Hr.
    destruct (main_done _ _ _ Hrun)
      as (cs & ps & os & done & its & g1 & rs' & g2
          & _ & _ & _ & _ & _ & Hrev & ->).
    simpl in Hr. injection Hr as <-.
    destruct (generate_reviews_ok _ _ _ _ _ Hrev) as (_ & Hcap & _). lia.
  - intros m st g Hfull. apply Z.leb_le in Hfull.
    destruct m as [|[cid l] m]; simpl; [reflexivity|].
    now rewrite Hfull.
  - intros cid rp st g Hfull. apply Z.leb_le in Hfull.
    destruct rp as [|p rp]; simpl; [reflexivity|].
    now rewrite Hfull.
Qed.

Lemma review_cap_witness :
  (length Crowd.emitted <= 200)%nat /\
  customer_loop [(Crowd.name 201, [{| p_product_id := "101";
                                      p_order_date := 739252 |}])]
    Crowd.full Crowd.rng = Ok (Crowd.full, Crowd.rng) /\
  emit_loop (Crowd.name 201) [{| p_product_id := "101";
                                 p_order_date := 739252 |}]
    Crowd.full Crowd.rng = Ok (Crowd.full, Crowd.rng).
Proof.
  destruct review_cap as (Hrun & Houter & Hinner). split; [|split].
  - apply (Hrun Crowd.files Crowd.rng Crowd.after); vm_compute; reflexivity.
  - apply Houter. vm_compute. discriminate.
  - apply Hinner. vm_compute. discriminate.
Defined.

(* ------------------------------------------------------------------ *)
(** ** Item counts *)

Lemma selection_NoDup_map {A B} (f : A -> B) (population sel : list A) :
  selection population sel ->
  NoDup (map f population) -> NoDup (map f sel).
Proof.
  intros (positions & Hnd & HF) Hpop. revert Hnd.
  induction HF as [|i x positions sel Hix HF IH]; intros Hnd; simpl.
  - constructor.
  - inversion Hnd as [|? ? Hni Hnd']; subst. constructor; [|now apply IH].
    intros Hin. apply in_map_iff in Hin. destruct Hin as (x' & Hfx & Hx').
    assert (Hi' : exists i',
               In i' positions /\ nth_error population i' = Some x').
    { clear -HF Hx'. induction HF as [|j y ps ys Hjy HF IH]; [destruct Hx'|].
      destruct Hx' as [->|Hx'].
      - exists j. split; [now left|exact Hjy].
      - destruct (IH Hx') as (i' & H1 & H2). exists i'.
        split; [now right|exact H2]. }
    destruct Hi' as (i' & Hin' & Hi'x).
    assert (i = i').
    { rewrite NoDup_nth_error in Hpop. apply Hpop.
      - rewrite length_map. apply nth_error_Some. congruence.
      - rewrite !nth_error_map, Hix, Hi'x. simpl. congruence. }
    subst i'. contradiction.
Qed.

Lemma make_items_order order id lines :
  Forall (fun item => oi_order_id item = order_id order)
         (make_items order id lines).
Proof.
  revert id. induction lines as [|l t IH]; intros id; simpl; constructor;
    auto.
Qed.

Lemma make_items_products order id lines :
  map oi_product_id (make_items order id lines)
  = map product_id (map fst lines).
Proof.
  revert id. induction lines as [|l t IH]; intros id; simpl; auto.
  now rewrite IH.
Qed.

(** C4. Item count bounds: the items of a run come in one chunk per
    order, in order; the chunk of an order carries that order's id, holds
    between 1 and 3 items when the status is Cancelled and between 1 and 5
    otherwise, and its products are catalog rows at pairwise distinct
    positions, hence pairwise distinct product ids when the catalog's ids
    are unique. *)
Theorem item_count_bounds products orders g done order_items g' :
  generate_order_items products orders g = Ok (done, order_items, g') ->
  exists chunks,
    order_items = concat chunks /\
    Forall2 (fun order chunk =>
      Forall (fun item => oi_order_id item = order_id order) chunk /\
      (order_status order = "Cancelled"%string ->
       (1 <= length chunk <= 3)%nat) /\
      (order_status order <> "Cancelled"%string ->
       (1 <= length chunk <= 5)%nat) /\
      (exists sel, selection products sel /\
                   map oi_product_id chunk = map product_id sel) /\
      (NoDup (map product_id products) ->
       NoDup (map oi_product_id chunk))) orders chunks.
Proof.
  intros H.
  destruct (generate_order_items_ok _ _ _ _ _ _ H) as (chunks & Hc & Hf & ->).
  exists chunks. split; [reflexivity|]. subst orders. clear H.
  induction Hc as [id|id order ct chunk done chunks Hch Hc IH]; simpl;
    constructor; auto.
  destruct Hch as (lines & Hsel & _ & Hlen & -> & _).
  rewrite make_items_length, make_items_products. unfold max_items in Hlen.
  split; [apply make_items_order|]. split; [|split; [|split]].
  - intros Hs. apply String.eqb_eq in Hs. rewrite Hs in Hlen. lia.
  - intros Hs. apply String.eqb_neq in Hs. rewrite Hs in Hlen. lia.
  - exists (map fst lines). auto.
  - intros Hnd. now apply (selection_NoDup_map product_id products).
Qed.

Lemma item_count_bounds_witness :
  NoDup (map product_id Demo.products) /\
  exists chunks,
    Demo.order_items = concat chunks /\
    Forall2 (fun order chunk =>
      Forall (fun item => oi_order_id item = order_id order) chunk /\
      (order_status order = "Cancelled"%string ->
       (1 <= length chunk <= 3)%nat) /\
      (order_status order <> "Cancelled"%string ->
       (1 <= length chunk <= 5)%nat) /\
      (exists sel, selection Demo.products sel /\
                   map oi_product_id chunk = map product_id sel) /\
      (NoDup (map product_id Demo.products) ->
       NoDup (map oi_product_id chunk))) Demo.orders chunks.
Proof.
  split.
  - vm_compute. repeat constructor; simpl; intuition discriminate.
  - apply (item_count_bounds Demo.products Demo.orders Demo.rng
             Demo.done Demo.order_items Demo.rng_items).
    vm_compute. reflexivity.
Defined.

(* ------------------------------------------------------------------ *)
(** ** What the run leaves untouched *)

Lemma rewrite_order_frame done :
  Forall2 same_but_total (map fst done) (map rewrite_order done).
Proof.
  induction done as [|[o ct] done IH]; simpl; constructor; auto.
  unfold same_but_total. simpl. repeat split.
Qed.

(** C9. Frame effect: whatever the run does and however it ends,
    [customers.csv] and [products.csv] are left as they were, and
    [orders.csv] is either left as it was (the run ended before the
    rewrite) or rewritten row by row with [order_id], [customer_id],
    [order_date], [order_status], [shipping_address] and [payment_method]
    unchanged; a completed run has rewritten it. *)
Theorem frame_effect fs g fs' r :
  main fs g = (fs', r) ->
  customers_csv fs' = customers_csv fs /\
  products_csv fs' = products_csv fs /\
  (orders_csv fs' = orders_csv fs \/ orders_rewritten fs fs') /\
  (r = None -> orders_rewritten fs fs').
Proof.
  unfold main. intros H.
  destruct (customers_csv fs) as [customers|] eqn:Ec;
    [|injection H as <- <-; rewrite Ec; repeat split; auto; discriminate].
  destruct (products_csv fs) as [products|] eqn:Ep;
    [|injection H as <- <-; rewrite Ec, Ep; repeat split; auto; discriminate].
  destruct (orders_csv fs) as [orders|] eqn:Eo;
    [|injection H as <- <-; rewrite Ec, Ep; repeat split; auto; discriminate].
  destruct (generate_order_items products orders g)
    as [[[done order_items] g1]|e] eqn:E1;
    [|injection H as <- <-; rewrite Ec, Ep; repeat split; auto; discriminate].
  destruct (generate_order_items_ok _ _ _ _ _ _ E1) as (_ & _ & Hf & _).
  assert (Hrw : forall fs0, orders_csv fs0 = Some (map rewrite_order done) ->
                            orders_rewritten fs fs0).
  { intros fs0 E0. exists orders, (map rewrite_order done).
    repeat split; auto. rewrite <- Hf. apply rewrite_order_frame. }
  destruct (generate_reviews (map fst done) order_items g1)
    as [[rs g2]|e] eqn:E2; injection H as <- <-; simpl;
    rewrite ?Ec, ?Ep; repeat split; auto.
Qed.

Lemma frame_effect_witness :
  customers_csv Demo.after = customers_csv Demo.files /\
  products_csv Demo.after = products_csv Demo.files /\
  (orders_csv Demo.after = orders_csv Demo.files \/
   orders_rewritten Demo.files Demo.after) /\
  (@None exn = None -> orders_rewritten Demo.files Demo.after).
Proof.
  apply (frame_effect Demo.files Demo.rng Demo.after None).
  vm_compute. reflexivity.
Defined.

(* ------------------------------------------------------------------ *)
(** ** Two reviews of one product by one customer *)

(** C10. Duplicate reviews per (customer, product) are possible: there is
    a well-formed input (unique product and order ids, one customer with
    two fulfilled orders on different dates that both contain product
    101) and a sequence of draws for which the completed run writes two
    reviews with different ids, the same customer and the same product. *)
Theorem duplicate_reviews_possible :
  exists fs products orders g fs' rs r1 r2,
    products_csv fs = Some products /\
    orders_csv fs = Some orders /\
    NoDup (map product_id products) /\
    NoDup (map order_id orders) /\
    main fs g = (fs', None) /\
    reviews_csv fs' = Some rs /\
    In r1 rs /\ In r2 rs /\
    review_id r1 <> review_id r2 /\
    r_customer_id r1 = r_customer_id r2 /\
    r_product_id r1 = r_product_id r2 /\
    review_date r1 <> review_date r2.
Proof.
  exists Demo.files, Demo.products, Demo.orders, Demo.rng, Demo.after,
    Demo.emitted, Demo.review1, Demo.review2.
  repeat split; try (vm_compute; reflexivity); try (vm_compute; discriminate).
  - vm_compute. repeat constructor; simpl; intuition discriminate.
  - vm_compute. repeat constructor; simpl; intuition discriminate.
  - vm_compute. auto.
  - vm_compute. auto.
Qed.

(* ------------------------------------------------------------------ *)
(** ** Rounding errors of binary64 *)

Local Open Scope Q_scope.

Lemma rne_err y : Qabs (inject_Z (rne y) - y) <= 1 # 2.
Proof.
  unfold rne.
  pose proof (Qfloor_le y) as Hlo. pose proof (Qlt_floor y) as Hhi.
  rewrite inject_Z_plus in Hhi. change (inject_Z 1) with 1 in Hhi.
  apply Qabs_Qle_condition.
  destruct (Qcompare (y - inject_Z (Qfloor y)) (1 # 2)) eqn:E;
    [apply Qeq_alt in E; destruct (Z.even (Qfloor y))
    |apply Qlt_alt in E
    |apply Qgt_alt in E];
    rewrite ?inject_Z_plus; change (inject_Z 1) with 1;
    generalize dependent (inject_Z (Qfloor y)); intros; lra.
Qed.

Lemma rne_near y c : Qabs (y - inject_Z c) < 1 # 2 -> rne y = c.
Proof.
  intros H. pose proof (rne_err y) as Hr.
  apply Qabs_Qle_condition in Hr.
  apply Qabs_Qlt_condition in H.
  assert (H1 : inject_Z (rne y) < inject_Z (c + 1)).
  { rewrite inject_Z_plus. change (inject_Z 1) with 1.
    generalize dependent (inject_Z (rne y)).
    generalize dependent (inject_Z c). intros. lra. }
  assert (H2 : inject_Z c < inject_Z (rne y + 1)).
  { rewrite inject_Z_plus. change (inject_Z 1) with 1.
    generalize dependent (inject_Z (rne y)).
    generalize dependent (inject_Z c). intros. lra. }
  rewrite <- Zlt_Qlt in H1, H2. lia.
Qed.

Lemma pow2_pos e : 0 < pow2 e.
Proof. unfold pow2. apply Qpower_0_lt. reflexivity. Qed.

Lemma pow2_add a b : pow2 (a + b) == pow2 a * pow2 b.
Proof. unfold pow2. apply Qpower_plus. discriminate. Qed.

Lemma pow2_Z k : (0 <= k)%Z -> pow2 k == inject_Z (2 ^ k).
Proof. intros Hk. unfold pow2. now rewrite Zpower_Qpower. Qed.

Lemma pow2_le a b : (a <= b)%Z -> pow2 a <= pow2 b.
Proof.
  intros H. unfold pow2. apply Qpower_le_compat_l; [exact H|]. discriminate.
Qed.

Lemma pow2_lt_inv a b : pow2 a < pow2 b -> (a < b)%Z.
Proof.
  unfold pow2. intros H.
  eapply Qpower_lt_compat_l_inv; [exact H|]. reflexivity.
Qed.

Lemma rne_nonneg y : 0 <= y -> (0 <= rne y)%Z.
Proof.
  intros Hy. unfold rne.
  assert (Hf : (0 <= Qfloor y)%Z).
  { change 0%Z with (Qfloor 0). now apply Qfloor_resp_le. }
  destruct (Qcompare _ _); [destruct (Z.even _)| |]; lia.
Qed.

Lemma ilog2_le x : 0 < x -> pow2 (ilog2 x) <= x.
Proof.
  intros Hx. unfold ilog2. destruct x as [n d]. simpl Qnum. simpl Qden.
  assert (Hn : (0 < n)%Z).
  { unfold Qlt in Hx. simpl in Hx. lia. }
  set (ln := Z.log2 n). set (ld := Z.log2 (Zpos d)).
  destruct (Qle_bool (pow2 (ln - ld)) (n # d)) eqn:E.
  - now apply Qle_bool_iff.
  - clear E.
    assert (Hln : (0 <= ln)%Z) by apply Z.log2_nonneg.
    assert (Hld : (0 <= ld)%Z) by apply Z.log2_nonneg.
    pose proof (Z.log2_spec n Hn) as [Hn1 _]. fold ln in Hn1.
    pose proof (Z.log2_spec (Zpos d) eq_refl) as [_ Hd2]. fold ld in Hd2.
    assert (Hmul : pow2 (ln - ld - 1) * inject_Z (2 ^ (ld + 1))
                   == inject_Z (2 ^ ln)).
    { rewrite <- !pow2_Z by lia. rewrite <- pow2_add. 
      replace (ln - ld - 1 + (ld + 1))%Z with ln by lia. reflexivity. }
    assert (Hb : 0 < inject_Z (2 ^ (ld + 1))).
    { rewrite <- pow2_Z by lia. apply pow2_pos. }
    apply Qmult_le_r with (z := inject_Z (2 ^ (ld + 1))); [exact Hb|].
    rewrite Hmul. unfold Z.succ in Hd2.
    generalize dependent (2 ^ (ld + 1))%Z. generalize dependent (2 ^ ln)%Z.
    intros a Ha b Hb _ _. unfold Qle. simpl. nia.
Qed.

Lemma ilog2_lt x : 0 < x -> x < pow2 (ilog2 x + 1).
Proof.
  intros Hx. unfold ilog2. destruct x as [n d]. simpl Qnum. simpl Qden.
  assert (Hn : (0 < n)%Z).
  { unfold Qlt in Hx. simpl in Hx. lia. }
  set (ln := Z.log2 n). set (ld := Z.log2 (Zpos d)).
  destruct (Qle_bool (pow2 (ln - ld)) (n # d)) eqn:E.
  - clear E.
    assert (Hln : (0 <= ln)%Z) by apply Z.log2_nonneg.
    assert (Hld : (0 <= ld)%Z) by apply Z.log2_nonneg.
    pose proof (Z.log2_spec n Hn) as [_ Hn2]. fold ln in Hn2.
    pose proof (Z.log2_spec (Zpos d) eq_refl) as [Hd1 _]. fold ld in Hd1.
    assert (Hmul : pow2 (ln - ld + 1) * inject_Z (2 ^ ld)
                   == inject_Z (2 ^ (ln + 1))).
    { rewrite <- !pow2_Z by lia. rewrite <- pow2_add.
      replace (ln - ld + 1 + ld)%Z with (ln + 1)%Z by lia. reflexivity. }
    assert (Hb : 0 < inject_Z (2 ^ ld)).
    { rewrite <- pow2_Z by lia. apply pow2_pos. }
    apply Qmult_lt_r with (z := inject_Z (2 ^ ld)); [exact Hb|].
    rewrite Hmul. unfold Z.succ in Hn2.
    assert (Hb' : (0 < 2 ^ ld)%Z) by (apply Z.pow_pos_nonneg; lia).
    generalize dependent (2 ^ ld)%Z. generalize dependent (2 ^ (ln + 1))%Z.
    intros a Ha b Hb _ _ Hb'. unfold Qlt. simpl. nia.
  - replace (ln - ld - 1 + 1)%Z with (ln - ld)%Z by lia.
    apply Qnot_le_lt. intros Hle. apply Qle_bool_iff in Hle. congruence.
Qed.

(** The model on doubles every Python prints: 0.1, 0.1 + 0.2, and the
    ties 0.125 and 0.375 under ["%.2f"]. *)
Example round64_tenth :
  literal 1 10 = Fin (3602879701896397 # 36028797018963968).
Proof. vm_compute. reflexivity. Qed.

Example fadd_tenths :
  fadd (literal 1 10) (literal 2 10)
  = Fin (1351079888211149 # 4503599627370496).
Proof. vm_compute. reflexivity. Qed.

Example format_2f_ties :
  format_2f (literal 1 8) = Cents 12 /\ format_2f (literal 3 8) = Cents 38 /\
  format_2f (literal 2675 1000) = Cents 267.
Proof. vm_compute. auto. Qed.

Lemma pow2_half e : pow2 e == 2 * pow2 (e - 1).
Proof.
  replace e with (1 + (e - 1))%Z at 1 by lia. rewrite pow2_add. reflexivity.
Qed.

Lemma round64_err x E :
  0 <= x -> x < pow2 (E + 1) -> (-1022 <= E <= 1022)%Z ->
  exists y, round64 x = Fin y /\ 0 <= y /\ Qabs (y - x) <= pow2 (E - 53).
Proof.
  intros H0 Hx HE. unfold round64.
  pose proof (pow2_pos (E - 53)) as Hpos.
  destruct (Qle_bool x 0) eqn:E0.
  - apply Qle_bool_iff in E0. exists 0. split; [reflexivity|].
    split; [apply Qle_refl|].
    apply Qabs_Qle_condition. generalize dependent (pow2 (E - 53)).
    intros. lra.
  - assert (Hx0 : 0 < x).
    { destruct (Qlt_le_dec 0 x) as [|Hle]; [assumption|].
      apply Qle_bool_iff in Hle. congruence. }
    clear E0.
    set (e := Z.max (ilog2 x) (-1022)).
    assert (He : (e <= E)%Z).
    { assert (ilog2 x < E + 1)%Z.
      { apply pow2_lt_inv. eapply Qle_lt_trans; [apply ilog2_le|]; eauto. }
      unfold e. lia. }
    set (ulp := pow2 (e - 52)).
    assert (Hulp : 0 < ulp) by apply pow2_pos.
    assert (Hulp2 : ulp <= 2 * pow2 (E - 53)).
    { assert (Hh : pow2 (E - 52) == 2 * pow2 (E - 53)).
      { rewrite (pow2_half (E - 52)).
        replace (E - 52 - 1)%Z with (E - 53)%Z by lia. reflexivity. }
      rewrite <- Hh. apply pow2_le. lia. }
    set (z := x / ulp).
    assert (Hz : x == z * ulp).
    { unfold z. field. intros Hu. rewrite Hu in Hulp. discriminate. }
    pose proof (rne_err z) as Hr. apply Qabs_Qle_condition in Hr.
    set (r := inject_Z (rne z)) in *.
    assert (Herr : - pow2 (E - 53) <= r * ulp - x <= pow2 (E - 53)).
    { generalize dependent (pow2 (E - 53)). clearbody r ulp z.
      intros p Hp Hp2. rewrite Hz. split; nra. }
    assert (Hfin : Qle_bool (pow2 1024) (r * ulp) = false).
    { destruct (Qle_bool (pow2 1024) (r * ulp)) eqn:Eb; [|reflexivity].
      apply Qle_bool_iff in Eb. exfalso.
      assert (H1 : pow2 (E + 1) <= pow2 1023) by (apply pow2_le; lia).
      assert (H2 : pow2 (E - 53) <= pow2 1023) by (apply pow2_le; lia).
      assert (H3 : pow2 1024 == 2 * pow2 1023) by (apply (pow2_half 1024)).
      generalize dependent (pow2 (E - 53)). generalize dependent (pow2 (E + 1)).
      generalize dependent (pow2 1023). generalize dependent (pow2 1024).
      clearbody r ulp z. intros. lra. }
    rewrite Hfin. exists (Qred (r * ulp)). split; [reflexivity|].
    rewrite Qred_correct. split.
    + apply Qmult_le_0_compat; [|now apply Qlt_le_weak].
      unfold r. change 0 with (inject_Z 0). rewrite <- Zle_Qle.
      apply rne_nonneg. unfold z. apply Qlt_le_weak.
      apply Qlt_shift_div_l; [exact Hulp|]. now rewrite Qmult_0_l.
    + apply Qabs_Qle_condition. exact Herr.
Qed.

Lemma pow2_m27 : pow2 (-27) == 1 # 134217728.
Proof. reflexivity. Qed.
Lemma pow2_m25 : pow2 (-25) == 4 # 134217728.
Proof. reflexivity. Qed.
Lemma pow2_m23 : pow2 (-23) == 16 # 134217728.
Proof. reflexivity. Qed.
Lemma pow2_27 : pow2 27 == 134217728.
Proof. reflexivity. Qed.
Lemma pow2_29 : pow2 29 == 536870912.
Proof. reflexivity. Qed.
Lemma pow2_31 : pow2 31 == 2147483648.
Proof. reflexivity. Qed.

Lemma Qmake_100 k : k # 100 == inject_Z k * (1 # 100).
Proof. unfold Qeq. simpl. lia. Qed.

Lemma price_float p :
  price_ok p ->
  exists y, float_of_decimal p = Fin y /\ 0 <= y /\
            Qabs (y - inject_Z (Z.of_N (dec_digits p)) * (1 # 100))
              <= 1 # 134217728.
Proof.
  intros [Hs Hd]. unfold float_of_decimal, dec_value. rewrite Hs.
  change (Z.to_pos (10 ^ Z.of_nat 2)) with 100%positive.
  assert (Hk : (0 <= Z.of_N (dec_digits p) <= 9999999999)%Z) by lia.
  revert Hk. generalize (Z.of_N (dec_digits p)). intros k Hk.
  destruct (round64_err (k # 100) 26) as (y & Ey & Hy & Herr).
  - unfold Qle. simpl. lia.
  - change (26 + 1)%Z with 27%Z. rewrite pow2_27. unfold Qlt. simpl. lia.
  - lia.
  - exists y. split; [exact Ey|]. split; [exact Hy|].
    change (26 - 53)%Z with (-27)%Z in Herr. rewrite pow2_m27 in Herr.
    rewrite Qmake_100 in Herr. exact Herr.
Qed.

Lemma of_int_small q : (1 <= q <= 3)%Z -> of_int q = Fin (inject_Z q).
Proof.
  intros H. assert (q = 1 \/ q = 2 \/ q = 3)%Z as [->|[->| ->]] by lia;
    reflexivity.
Qed.

Lemma Qmult_bounds q d e :
  0 <= q -> - e <= d <= e -> - (q * e) <= q * d <= q * e.
Proof.
  intros Hq [H1 H2]. split.
  - setoid_replace (- (q * e)) with (q * - e) by ring.
    rewrite !(Qmult_comm q). apply Qmult_le_compat_r; assumption.
  - rewrite !(Qmult_comm q). apply Qmult_le_compat_r; assumption.
Qed.

Lemma line_subtotal_float line :
  line_ok line ->
  exists s, line_subtotal line = Fin s /\ 0 <= s /\
            Qabs (s - inject_Z (line_cents line) * (1 # 100))
              <= 7 # 134217728.
Proof.
  intros [Hp Hq]. unfold line_subtotal, line_cents.
  destruct (price_float _ Hp) as (y & Ey & Hy & Herr).
  rewrite Ey, of_int_small by exact Hq. simpl fmul.
  destruct Hp as [_ Hd].
  assert (Hk : (0 <= Z.of_N (dec_digits (price (fst line))) <= 9999999999)%Z)
    by lia.
  rewrite inject_Z_mult. clear Hd Ey.
  revert Herr Hk.
  generalize (Z.of_N (dec_digits (price (fst line)))). intros k Herr Hk.
  assert (HK : 0 <= inject_Z k <= 9999999999).
  { change 0 with (inject_Z 0).
    change 9999999999 with (inject_Z 9999999999). rewrite <- !Zle_Qle. lia. }
  assert (HQ : 1 <= inject_Z (snd line) <= 3).
  { change 1 with (inject_Z 1). change 3 with (inject_Z 3).
    rewrite <- !Zle_Qle. lia. }
  apply Qabs_Qle_condition in Herr. clear Hk Hq.
  revert Herr HK HQ.
  generalize (inject_Z k). generalize (inject_Z (snd line)).
  intros q K Herr HK HQ.
  assert (Hqy : 0 <= q * y <= 3 * y).
  { split; [apply Qmult_le_0_compat; lra|].
    apply Qmult_le_compat_r; lra. }
  assert (Hq0 : 0 <= q) by lra.
  pose proof (Qmult_bounds q _ _ Hq0 Herr) as Hqd.
  assert (Hq3 : q * (1 # 134217728) <= 3 # 134217728) by lra.
  destruct (round64_err (q * y) 28) as (s & Es & Hs & Hserr).
  - lra.
  - change (28 + 1)%Z with 29%Z. rewrite pow2_29. lra.
  - lia.
  - exists s. split; [exact Es|]. split; [exact Hs|].
    change (28 - 53)%Z with (-25)%Z in Hserr. rewrite pow2_m25 in Hserr.
    apply Qabs_Qle_condition in Hserr. apply Qabs_Qle_condition.
    setoid_replace (s - q * K * (1 # 100))
      with ((s - q * y) + q * (y - K * (1 # 100))) by ring.
    lra.
Qed.

Lemma inject_nat_bounds (i n : nat) :
  (i <= n)%nat -> 0 <= inject_Z (Z.of_nat i) <= inject_Z (Z.of_nat n).
Proof.
  intros H. change 0 with (inject_Z 0). rewrite <- !Zle_Qle. lia.
Qed.

Lemma format_near y c :
  Qabs (y - inject_Z c * (1 # 100)) <= 115 # 134217728 ->
  format_2f (Fin y) = Cents c.
Proof.
  intros H. simpl. f_equal. apply rne_near.
  apply Qabs_Qle_condition in H. apply Qabs_Qlt_condition.
  revert H. generalize (inject_Z c). intros C H. lra.
Qed.

Lemma line_subtotal_cents line :
  line_ok line -> format_2f (line_subtotal line) = Cents (line_cents line).
Proof.
  intros H. destruct (line_subtotal_float line H) as (s & -> & _ & Herr).
  apply format_near. eapply Qle_trans; [exact Herr|]. 
  unfold Qle. simpl. lia.
Qed.

Lemma line_cents_bounds line :
  line_ok line -> (0 <= line_cents line <= 29999999997)%Z.
Proof.
  intros [[_ Hd] Hq]. unfold line_cents. nia.
Qed.

Lemma accumulate_float lines :
  Forall line_ok lines ->
  forall (i : nat) y a,
    (i + length lines <= 5)%nat ->
    0 <= y ->
    Qabs (y - inject_Z a * (1 # 100))
      <= inject_Z (Z.of_nat i) * (23 # 134217728) ->
    (0 <= a <= Z.of_nat i * 29999999997)%Z ->
    exists y',
      accumulate (Fin y) lines = Fin y' /\
      Qabs (y' - inject_Z (a + sum_cents (map line_cents lines)) * (1 # 100))
        <= inject_Z (Z.of_nat (i + length lines)) * (23 # 134217728).
Proof.
  induction 1 as [|line lines Hline Hlines IH]; intros i y a Hlen Hy Herr HS.
  - exists y. simpl. rewrite Z.add_0_r, Nat.add_0_r. auto.
  - simpl length in Hlen. unfold accumulate. simpl fold_left.
    fold (accumulate (fadd (Fin y) (line_subtotal line)) lines).
    destruct (line_subtotal_float line Hline) as (s & -> & Hs & Hserr).
    pose proof (line_cents_bounds line Hline) as Hc.
    simpl fadd.
    assert (HSq : 0 <= inject_Z a
                  <= inject_Z (Z.of_nat i) * 29999999997).
    { change 0 with (inject_Z 0).
      change 29999999997 with (inject_Z 29999999997).
      rewrite <- inject_Z_mult, <- !Zle_Qle. lia. }
    assert (Hcq : 0 <= inject_Z (line_cents line) <= 29999999997).
    { change 0 with (inject_Z 0).
      change 29999999997 with (inject_Z 29999999997).
      rewrite <- !Zle_Qle. lia. }
    pose proof (inject_nat_bounds i 4 ltac:(lia)) as Hi.
    change (inject_Z (Z.of_nat 4)) with 4 in Hi.
    apply Qabs_Qle_condition in Herr, Hserr.
    destruct (round64_err (y + s) 30) as (y' & Ey & Hy' & Herr').
    + lra.
    + change (30 + 1)%Z with 31%Z. rewrite pow2_31.
      revert Herr Hserr HSq Hcq Hi.
      generalize (inject_Z a) (inject_Z (line_cents line))
                 (inject_Z (Z.of_nat i)).
      intros. lra.
    + lia.
    + rewrite Ey.
      change (30 - 53)%Z with (-23)%Z in Herr'. rewrite pow2_m23 in Herr'.
      apply Qabs_Qle_condition in Herr'.
      destruct (IH (S i) y' (a + line_cents line)%Z) as (y'' & Ey' & Herr'').
      * lia.
      * exact Hy'.
      * apply Qabs_Qle_condition.
        rewrite Nat2Z.inj_succ. unfold Z.succ.
        rewrite !inject_Z_plus. change (inject_Z 1) with 1.
        revert Herr Hserr Herr'.
        generalize (inject_Z a) (inject_Z (line_cents line))
                   (inject_Z (Z.of_nat i)).
        intros. lra.
      * lia.
      * exists y''. split; [exact Ey'|].
        simpl map. simpl sum_cents. fold (sum_cents (map line_cents lines)).
        simpl length.
        replace (i + S (length lines))%nat with (S i + length lines)%nat
          by lia.
        rewrite Z.add_assoc. exact Herr''.
Qed.

Lemma accumulate_cents lines :
  Forall line_ok lines -> (length lines <= 5)%nat ->
  format_2f (accumulate (of_int 0) lines)
  = Cents (sum_cents (map line_cents lines)).
Proof.
  intros Hl Hlen. change (of_int 0) with (Fin 0).
  destruct (accumulate_float lines Hl 0 0 0%Z) as (y & -> & Herr).
  - lia.
  - apply Qle_refl.
  - apply Qabs_Qle_condition. simpl. split; discriminate.
  - lia.
  - apply format_near. eapply Qle_trans; [exact Herr|]. simpl plus.
    pose proof (inject_nat_bounds (length lines) 5 Hlen) as [_ H5].
    change (inject_Z (Z.of_nat 5)) with 5 in H5.
    revert H5. generalize (inject_Z (Z.of_nat (length lines))). intros. lra.
Qed.

Local Close Scope Q_scope.

(* ------------------------------------------------------------------ *)
(** ** Total reconciliation *)

Lemma selection_In {A} (population sel : list A) x :
  selection population sel -> In x sel -> In x population.
Proof.
  intros (positions & _ & HF) Hx.
  induction HF as [|i y ps ys Hiy HF IH]; [destruct Hx|].
  destruct Hx as [->|Hx]; [|now apply IH].
  eapply nth_error_In. exact Hiy.
Qed.

Lemma make_items_subtotals order id lines :
  Forall line_ok lines ->
  map subtotal (make_items order id lines)
  = map Cents (map line_cents lines).
Proof.
  intros H. revert id. induction H as [|l t Hl Ht IH]; intros id; simpl.
  - reflexivity.
  - rewrite IH. f_equal. now apply line_subtotal_cents.
Qed.

Lemma chunk_reconciled products order id ct chunk :
  Forall (fun p => price_ok (price p)) products ->
  order_chunk products order id ct chunk ->
  reconciled ct chunk.
Proof.
  intros Hp (lines & Hsel & Hq & Hlen & -> & ->).
  assert (Hl : Forall line_ok lines).
  { apply Forall_forall. intros l Hin. split.
    - rewrite Forall_forall in Hp. apply Hp.
      eapply selection_In; [exact Hsel|]. now apply in_map.
    - rewrite Forall_forall in Hq. now apply Hq. }
  exists (map line_cents lines). split.
  - now apply make_items_subtotals.
  - apply accumulate_cents; [exact Hl|].
    unfold max_items in Hlen. destruct (String.eqb _ _); lia.
Qed.

(** The scenario of the specification: one Delivered order of
    2025-01-01, a catalog priced 10.00 to 50.00, two items with
    quantities 1 and 2 of the products priced 10.00 and 20.00.  The
    subtotals are 10.00 and 40.00 and the total is 50.00. *)
Example two_items_fifty :
  exists done order_items g',
    generate_order_items Demo.products
      [Demo.mk_order "1" "c1" 739252 "Delivered"]
      (Demo.mk_rng [1; 0; 1; 0; 1]%N)
    = Ok (done, order_items, g') /\
    map (fun item => (oi_product_id item, quantity item, subtotal item))
        order_items
    = [("101"%string, 1, Cents 1000); ("102"%string, 2, Cents 4000)] /\
    map snd done = [Cents 5000].
Proof. do 3 eexists. split; [vm_compute; reflexivity|]. split; reflexivity. Qed.

(** C1 (amended). Total reconciliation for catalog prices that fit
    [DECIMAL(10, 2)] (whole cents, at most 99999999.99): the items of a
    run come in one chunk per order, and for every order, whatever its
    status, the stored subtotals of its chunk add up, to the cent, to the
    [total_amount] written back for that order. *)
Theorem total_reconciliation products orders g done order_items g' :
  Forall (fun p => price_ok (price p)) products ->
  generate_order_items products orders g = Ok (done, order_items, g') ->
  exists chunks,
    order_items = concat chunks /\
    Forall2 (fun oc chunk =>
      Forall (fun item => oi_order_id item = order_id (rewrite_order oc))
             chunk /\
      reconciled (total_amount (rewrite_order oc)) chunk) done chunks.
Proof.
  intros Hp H.
  destruct (generate_order_items_ok _ _ _ _ _ _ H) as (chunks & Hc & _ & ->).
  exists chunks. split; [reflexivity|]. clear H.
  induction Hc as [id|id order ct chunk done chunks Hch Hc IH]; simpl;
    constructor; auto.
  simpl. split.
  - destruct Hch as (lines & _ & _ & _ & -> & _). apply make_items_order.
  - eapply chunk_reconciled; eassumption.
Qed.

Lemma total_reconciliation_witness :
  exists chunks,
    Demo.order_items = concat chunks /\
    Forall2 (fun oc chunk =>
      Forall (fun item => oi_order_id item = order_id (rewrite_order oc))
             chunk /\
      reconciled (total_amount (rewrite_order oc)) chunk)
      Demo.done chunks.
Proof.
  apply (total_reconciliation Demo.products Demo.orders Demo.rng
           Demo.done Demo.order_items Demo.rng_items).
  - repeat (constructor; [split; [reflexivity|vm_compute; discriminate]|]).
    constructor.
  - vm_compute. reflexivity.
Defined.

(** C1 as stated fails outside [DECIMAL(10, 2)].  With two items of
    quantity 1 priced 0.004 the stored subtotals are 0.00 and 0.00 and the
    stored total is 0.01; priced 100000000000000.01 they are
    100000000000000.02 twice and the total is 200000000000000.03. *)
Lemma rounding_drift :
  (generate_order_items Drift.mills [Drift.order] Drift.rng
     = Ok ([(Drift.order, Cents 1)], Drift.mill_items, Drift.rng_after) /\
   ~ reconciled (total_amount (rewrite_order (Drift.order, Cents 1)))
                Drift.mill_items) /\
  (generate_order_items Drift.fortunes [Drift.order] Drift.rng
     = Ok ([(Drift.order, Cents 20000000000000003)], Drift.fortune_items,
           Drift.rng_after) /\
   ~ reconciled (total_amount
                   (rewrite_order (Drift.order, Cents 20000000000000003)))
                Drift.fortune_items).
Proof.
  split; (split; [vm_compute; reflexivity|]);
    intros (cents & Hm & Ht); simpl in Hm, Ht;
    destruct cents as [|c1 [|c2 [|c3 cents]]]; try discriminate;
    injection Hm as <- <-; discriminate.
Qed.

(* ------------------------------------------------------------------ *)
(** ** Exceptions of the review loops *)


Lemma random_ok g r g' :
  random g = Ok (r, g') -> exists q, r = Fin q /\ (0 <= q)%Q /\ (q < 1)%Q.
Proof.
  unfold random. destruct (draw g) as [n g1]. intros H. injection H as <- _.
  eexists. split; [reflexivity|].
  pose proof (Z.mod_pos_bound (Z.of_N n) 9007199254740992 eq_refl) as Hm.
  unfold Qle, Qlt. simpl Qnum. simpl Qden.
  change (Z.pow_pos 2 53) with 9007199254740992.
  change (Z.pos (2 ^ 53)) with 9007199254740992. lia.
Qed.

Lemma random_total g : exists r g', random g = Ok (r, g').
Proof. unfold random. destruct (draw g) as [n g1]. eauto. Qed.


Lemma uniform_total a b g : exists u g', uniform a b g = Ok (u, g').
Proof.
  unfold uniform, bind. destruct (random_total g) as (r & g1 & ->).
  unfold ret. eauto.
Qed.

Lemma draw_num_reviews_ok product_orders g n g' :
  draw_num_reviews product_orders g = Ok (n, g') -> 1 <= n.
Proof.
  unfold draw_num_reviews. intros H.
  apply bind_ok in H as (u & g1 & _ & H).
  apply bind_ok in H as (k & g2 & _ & H).
  apply ret_ok in H as [<- _]. lia.
Qed.


Lemma bisect_loop_bounds fuel a x lo hi :
  lo <= hi -> lo <= bisect_loop fuel a x lo hi <= hi.
Proof.
  revert lo hi. induction fuel as [|fuel IH]; intros lo hi H; simpl.
  - lia.
  - destruct (lo <? hi) eqn:E; [|lia]. apply Z.ltb_lt in E.
    assert (Hmid : lo <= (lo + hi) / 2 < hi).
    { split; [apply Z.div_le_lower_bound|apply Z.div_lt_upper_bound]; lia. }
    destruct (flt_int x _).
    + specialize (IH lo ((lo + hi) / 2)). lia.
    + specialize (IH ((lo + hi) / 2 + 1) hi). lia.
Qed.

Lemma choices1_ok g :
  exists stars g',
    choices1 [5; 4; 3; 2; 1] [40; 30; 15; 10; 5] g = Ok (stars, g') /\
    1 <= stars <= 5.
Proof.
  unfold choices1, bind. destruct (random_total g) as (r & g1 & ->).
  unfold ret. eexists. eexists. split; [reflexivity|].
  simpl length. simpl fold_left. simpl snd.
  match goal with
  | |- context [bisect ?a ?x ?lo ?hi] =>
      pose proof (bisect_loop_bounds (Z.to_nat (hi - lo)) a x lo hi) as Hb;
      fold (bisect a x lo hi) in Hb; set (idx := bisect a x lo hi) in *
  end.
  simpl in Hb. specialize (Hb ltac:(lia)).
  assert (Hidx : idx = 0 \/ idx = 1 \/ idx = 2 \/ idx = 3 \/ idx = 4) by lia.
  destruct Hidx as [-> | [-> | [-> | [-> | ->]]]]; simpl; lia.
Qed.

Lemma choice_total {A} (seq : list A) g :
  seq <> [] -> exists x g', choice seq g = Ok (x, g').
Proof.
  intros H. destruct seq as [|d seq]; [congruence|].
  unfold choice, bind.
  destruct (randbelow_total (Z.of_nat (length (d :: seq))) g) as (j & g1 & ->).
  unfold ret. eauto.
Qed.

Lemma review_texts_nonempty stars : 1 <= stars <= 5 -> review_texts stars <> [].
Proof.
  intros H.
  assert (Hs : stars = 1 \/ stars = 2 \/ stars = 3 \/ stars = 4 \/ stars = 5)
    by lia.
  destruct Hs as [-> | [-> | [-> | [-> | ->]]]]; discriminate.
Qed.


(* ------------------------------------------------------------------ *)
(** ** Missing and empty inputs *)


(* ================================================================== *)
(** * Further properties *)

(* ------------------------------------------------------------------ *)
(** ** The rows of [order_items.csv] *)

Lemma chunked_item products id done chunks item :
  chunked products id done chunks ->
  In item (concat chunks) ->
  exists order ct line id',
    In (order, ct) done /\
    In (fst line) products /\
    1 <= snd line <= 3 /\
    item = make_item order id' line.
Proof.
  induction 1 as [id|id order ct chunk done chunks Hc Hch IH]; simpl.
  - intros [].
  - intros Hin. apply in_app_or in Hin. destruct Hin as [Hin|Hin].
    + destruct Hc as (lines & Hsel & Hq & _ & -> & _).
      assert (Hl : exists line id',
                   In line lines /\ item = make_item order id' line).
      { clear -Hin. revert id Hin.
        induction lines as [|l t IHl]; intros id Hin; simpl in Hin;
          [destruct Hin|].
        destruct Hin as [<-|Hin].
        - exists l, id. split; [now left|reflexivity].
        - destruct (IHl _ Hin) as (line & id' & H1 & H2).
          exists line, id'. split; [now right|exact H2]. }
      destruct Hl as (line & id' & Hline & ->).
      exists order, ct, line, id'. split; [now left|]. split; [|split].
      * eapply selection_In; [exact Hsel|]. now apply in_map.
      * rewrite Forall_forall in Hq. now apply Hq.
      * reflexivity.
    + destruct (IH Hin) as (o & c & line & id' & H1 & H2 & H3 & H4).
      exists o, c, line, id'. split; [now right|auto].
Qed.

(** X1. Every generated order item refers to an order of [orders.csv]
    and to a product of the catalog, and its quantity is 1, 2 or 3. *)
Theorem items_refer products orders g done order_items g' :
  generate_order_items products orders g = Ok (done, order_items, g') ->
  Forall (fun item =>
            item_refers products orders item /\ 1 <= quantity item <= 3)
         order_items.
Proof.
  intros H.
  destruct (generate_order_items_ok _ _ _ _ _ _ H) as (chunks & Hc & Hf & ->).
  apply Forall_forall. intros item Hin.
  destruct (chunked_item _ _ _ _ _ Hc Hin)
    as (order & ct & line & id' & Hd & Hp & Hq & ->).
  split; [split|exact Hq].
  - exists order. split; [|reflexivity].
    rewrite <- Hf. change order with (fst (order, ct)). now apply in_map.
  - exists (fst line). split; [exact Hp|reflexivity].
Qed.

Lemma items_refer_witness :
  Forall (fun item =>
            item_refers Demo.products Demo.orders item /\
            1 <= quantity item <= 3)
         Demo.order_items.
Proof.
  apply (items_refer Demo.products Demo.orders Demo.rng Demo.done
           Demo.order_items Demo.rng_items).
  vm_compute. reflexivity.
Defined.

Lemma price_cents p :
  price_ok p ->
  format_2f (float_of_decimal p) = Cents (Z.of_N (dec_digits p)).
Proof.
  intros H. destruct (price_float p H) as (y & -> & _ & Herr).
  apply format_near. eapply Qle_trans; [exact Herr|].
  unfold Qle. simpl. lia.
Qed.

(** X2. For catalog prices that fit [DECIMAL(10, 2)], every generated
    order item stores the catalog price of its product as [unit_price]
    and exactly [quantity] times that price as [subtotal]: no cent is
    lost to the floating-point product. *)
Theorem items_priced products orders g done order_items g' :
  Forall (fun p => price_ok (price p)) products ->
  generate_order_items products orders g = Ok (done, order_items, g') ->
  Forall (item_priced products) order_items.
Proof.
  intros Hp H.
  destruct (generate_order_items_ok _ _ _ _ _ _ H) as (chunks & Hc & _ & ->).
  apply Forall_forall. intros item Hin.
  destruct (chunked_item _ _ _ _ _ Hc Hin)
    as (order & ct & line & id' & _ & Hl & Hq & ->).
  rewrite Forall_forall in Hp. specialize (Hp _ Hl).
  exists (fst line). split; [exact Hl|]. split; [reflexivity|].
  unfold make_item. cbn [unit_price subtotal quantity]. split.
  - now apply price_cents.
  - apply (line_subtotal_cents line). split; assumption.
Qed.

Lemma items_priced_witness :
  Forall (item_priced Demo.products) Demo.order_items.
Proof.
  apply (items_priced Demo.products Demo.orders Demo.rng Demo.done
           Demo.order_items Demo.rng_items).
  - repeat (constructor; [split; [reflexivity|vm_compute; discriminate]|]).
    constructor.
  - vm_compute. reflexivity.
Defined.

(* ------------------------------------------------------------------ *)
(** ** Catalogs that are large enough *)

Lemma num_items_total order g :
  exists n g',
    (if String.eqb (order_status order) "Cancelled"
     then randint 1 3 else randint 1 5) g = Ok (n, g').
Proof.
  destruct (String.eqb _ _); apply randint_total.
Qed.

Lemma order_body_enough products order order_items id g :
  max_items order <= Z.of_nat (length products) ->
  exists r g', order_body products order order_items id g = Ok (r, g').
Proof.
  intros Hp. unfold order_body, bind.
  destruct (num_items_total order g) as (n & g1 & En). rewrite En.
  pose proof (num_items_ok _ _ _ _ En) as Hn.
  destruct (sample_total products n g1) as (sel & g2 & Es); [lia|].
  rewrite Es.
  destruct (item_loop_total order sel (of_int 0) order_items id g2)
    as ([[t its] nid] & g3 & Ei).
  rewrite Ei. unfold ret. eauto.
Qed.

Lemma order_loop_enough products orders order_items id g :
  Forall (fun order => max_items order <= Z.of_nat (length products)) orders ->
  exists r g', order_loop products orders order_items id g = Ok (r, g').
Proof.
  intros Hp. revert order_items id g.
  induction Hp as [|o rest Ho Hrest IH]; intros order_items id g;
    cbn [order_loop].
  - unfold ret. eauto.
  - unfold bind.
    destruct (order_body_enough products o order_items id g Ho)
      as ([[ct its] nid] & g1 & E).
    rewrite E.
    destruct (IH its nid g1) as ([[done its'] nid'] & g2 & E').
    rewrite E'. unfold ret. eauto.
Qed.


(* ------------------------------------------------------------------ *)
(** ** Rounding is monotone and exact on integers *)

Local Open Scope Q_scope.

Lemma rne_comp a b : a == b -> rne a = rne b.
Proof.
  intros H. unfold rne.
  assert (Hf : Qfloor a = Qfloor b) by (now rewrite H).
  rewrite Hf.
  assert (Hc : (a - inject_Z (Qfloor b) ?= 1 # 2)
               = (b - inject_Z (Qfloor b) ?= 1 # 2)) by (now rewrite H).
  now rewrite Hc.
Qed.

Lemma rne_mono a b : a <= b -> (rne a <= rne b)%Z.
Proof.
  intros Hab.
  destruct (Z_le_gt_dec (rne a) (rne b)) as [|Hgt]; [assumption|exfalso].
  pose proof (rne_err a) as Ha. pose proof (rne_err b) as Hb.
  apply Qabs_Qle_condition in Ha, Hb.
  assert (H1 : inject_Z (rne b) + 1 <= inject_Z (rne a)).
  { change 1 with (inject_Z 1). rewrite <- inject_Z_plus, <- Zle_Qle. lia. }
  assert (Heq : a == b).
  { apply Qle_antisym; [exact Hab|].
    revert Ha Hb H1. generalize (inject_Z (rne a)) (inject_Z (rne b)).
    intros. lra. }
  apply rne_comp in Heq. lia.
Qed.

Lemma rne_Z n : rne (inject_Z n) = n.
Proof.
  apply rne_near. setoid_replace (inject_Z n - inject_Z n) with 0 by ring.
  reflexivity.
Qed.

Lemma ilog2_mono x y : 0 < x -> x <= y -> (ilog2 x <= ilog2 y)%Z.
Proof.
  intros Hx Hxy.
  assert (Hy : 0 < y) by (eapply Qlt_le_trans; eassumption).
  assert (H : (ilog2 x < ilog2 y + 1)%Z).
  { apply pow2_lt_inv. eapply Qle_lt_trans; [apply ilog2_le; exact Hx|].
    eapply Qle_lt_trans; [exact Hxy|]. now apply ilog2_lt. }
  lia.
Qed.

Lemma pow2_scale e k :
  (0 <= k)%Z -> inject_Z (2 ^ k) * pow2 (e - k) == pow2 e.
Proof.
  intros Hk. rewrite <- pow2_Z by exact Hk. rewrite <- pow2_add.
  replace (k + (e - k))%Z with e by lia. reflexivity.
Qed.

(** The two shapes of [round64] on a positive rational. *)
Lemma round64_pos x :
  0 < x ->
  let ulp := pow2 (Z.max (ilog2 x) (-1022) - 52) in
  round64 x = Inf \/
  exists y, round64 x = Fin y /\ y == inject_Z (rne (x / ulp)) * ulp.
Proof.
  intros Hx ulp. unfold round64.
  destruct (Qle_bool x 0) eqn:E0.
  { apply Qle_bool_iff in E0. exfalso. revert E0. now apply Qlt_not_le. }
  fold ulp. destruct (Qle_bool (pow2 1024) _); [now left|].
  right. eexists. split; [reflexivity|]. apply Qred_correct.
Qed.

Lemma round64_nonneg x y : round64 x = Fin y -> 0 <= y.
Proof.
  intros H. destruct (Qlt_le_dec 0 x) as [Hx|Hx].
  - destruct (round64_pos x Hx) as [E|(y' & E & Ey)]; [congruence|].
    assert (y = y') by congruence. subst y'. rewrite Ey.
    apply Qmult_le_0_compat; [|apply Qlt_le_weak, pow2_pos].
    change 0 with (inject_Z 0). rewrite <- Zle_Qle. apply rne_nonneg.
    apply Qlt_le_weak. apply Qlt_shift_div_l; [apply pow2_pos|].
    now rewrite Qmult_0_l.
  - unfold round64 in H. apply Qle_bool_iff in Hx. rewrite Hx in H.
    assert (y = 0) by congruence. subst y. apply Qle_refl.
Qed.

(** [round64] is monotone. *)
Lemma round64_mono x y a b :
  x <= y -> round64 x = Fin a -> round64 y = Fin b -> a <= b.
Proof.
  intros Hxy Ha Hb.
  destruct (Qlt_le_dec 0 x) as [Hx|Hx].
  2:{ unfold round64 in Ha. apply Qle_bool_iff in Hx. rewrite Hx in Ha.
      assert (a = 0) by congruence. subst a.
      eapply round64_nonneg. exact Hb. }
  assert (Hy : 0 < y) by (eapply Qlt_le_trans; eassumption).
  destruct (round64_pos x Hx) as [E|(a' & E & Ea)]; [congruence|].
  destruct (round64_pos y Hy) as [E'|(b' & E' & Eb)]; [congruence|].
  assert (a = a') by congruence. assert (b = b') by congruence. subst a' b'.
  rewrite Ea, Eb. clear Ea Eb Ha Hb E E'.
  pose proof (ilog2_mono x y Hx Hxy) as Hlog.
  set (ex := Z.max (ilog2 x) (-1022)). set (ey := Z.max (ilog2 y) (-1022)).
  pose proof (pow2_pos (ex - 52)) as Hux.
  pose proof (pow2_pos (ey - 52)) as Huy.
  destruct (Z.eq_dec ex ey) as [Heq|Hne].
  - rewrite Heq in *. apply Qmult_le_compat_r; [|now apply Qlt_le_weak].
    rewrite <- Zle_Qle. apply rne_mono.
    apply Qmult_le_compat_r; [exact Hxy|].
    apply Qlt_le_weak, Qinv_lt_0_compat, Huy.
  - assert (Hlt : (ex < ey)%Z) by (unfold ex, ey in *; lia).
    assert (Hey : ey = ilog2 y) by (unfold ex, ey in *; lia).
    assert (Hsx : inject_Z (2 ^ 53) * pow2 (ex - 52) == pow2 (ex + 1)).
    { replace (ex - 52)%Z with (ex + 1 - 53)%Z by lia.
      apply pow2_scale. lia. }
    assert (Hsy : inject_Z (2 ^ 52) * pow2 (ey - 52) == pow2 ey)
      by (apply pow2_scale; lia).
    apply Qle_trans with (y := pow2 (ex + 1)).
    + eapply Qle_trans; [|apply Qle_lteq; right; exact Hsx].
      apply Qmult_le_compat_r; [|now apply Qlt_le_weak].
      rewrite <- Zle_Qle. rewrite <- (rne_Z (2 ^ 53)). apply rne_mono.
      apply Qle_shift_div_r; [exact Hux|].
      eapply Qle_trans; [|apply Qle_lteq; right; symmetry; exact Hsx].
      apply Qlt_le_weak. eapply Qlt_le_trans; [apply ilog2_lt; exact Hx|].
      apply pow2_le. unfold ex. lia.
    + apply Qle_trans with (y := pow2 ey); [apply pow2_le; lia|].
      eapply Qle_trans; [apply Qle_lteq; right; symmetry; exact Hsy|].
      apply Qmult_le_compat_r; [|now apply Qlt_le_weak].
      rewrite <- Zle_Qle. rewrite <- (rne_Z (2 ^ 52)). apply rne_mono.
      apply Qle_shift_div_l; [exact Huy|].
      eapply Qle_trans; [apply Qle_lteq; right; exact Hsy|].
      rewrite Hey. now apply ilog2_le.
Qed.

(** Integers below 2^53 are doubles. *)
Lemma round64_int k :
  (0 <= k < 2 ^ 53)%Z ->
  exists y, round64 (inject_Z k) = Fin y /\ y == inject_Z k.
Proof.
  intros Hk.
  destruct (Z.eq_dec k 0) as [->|Hk0].
  { exists 0. split; reflexivity. }
  assert (Hpos : 0 < inject_Z k).
  { change 0 with (inject_Z 0). rewrite <- Zlt_Qlt. lia. }
  assert (Hlog : (0 <= ilog2 (inject_Z k) < 53)%Z).
  { split.
    - assert (H : (0 < ilog2 (inject_Z k) + 1)%Z); [|lia].
      apply pow2_lt_inv. change (pow2 0) with 1.
      eapply Qle_lt_trans; [|apply ilog2_lt; exact Hpos].
      change 1 with (inject_Z 1). rewrite <- Zle_Qle. lia.
    - apply pow2_lt_inv. eapply Qle_lt_trans; [apply ilog2_le; exact Hpos|].
      rewrite pow2_Z by lia. rewrite <- Zlt_Qlt. lia. }
  destruct (round64_err (inject_Z k) 52) as (y & Ey & _ & _).
  { now apply Qlt_le_weak. }
  { rewrite pow2_Z by lia. rewrite <- Zlt_Qlt. simpl. lia. }
  { lia. }
  exists y. split; [exact Ey|].
  destruct (round64_pos (inject_Z k) Hpos) as [E|(y' & E & Ey')];
    [congruence|].
  assert (y = y') by congruence. subst y'. rewrite Ey'.
  set (e := Z.max (ilog2 (inject_Z k)) (-1022)).
  assert (He : (0 <= e < 53)%Z) by (unfold e; lia).
  assert (Hdiv : inject_Z k / pow2 (e - 52) == inject_Z (k * 2 ^ (52 - e))).
  { rewrite inject_Z_mult. rewrite <- (pow2_Z (52 - e)) by lia.
    apply Qmult_inj_r with (z := pow2 (e - 52)).
    { intros H0. pose proof (pow2_pos (e - 52)) as Hp. rewrite H0 in Hp.
      discriminate. }
    rewrite <- Qmult_assoc, <- pow2_add.
    replace (52 - e + (e - 52))%Z with 0%Z by lia. change (pow2 0) with 1.
    field. intros H0. pose proof (pow2_pos (e - 52)) as Hp. rewrite H0 in Hp.
    discriminate. }
  rewrite (rne_comp _ _ Hdiv), rne_Z, inject_Z_mult.
  rewrite <- (pow2_Z (52 - e)) by lia.
  rewrite <- Qmult_assoc, <- pow2_add.
  replace (52 - e + (e - 52))%Z with 0%Z by lia. change (pow2 0) with 1.
  ring.
Qed.

Local Close Scope Q_scope.


(* ------------------------------------------------------------------ *)
(** ** How many purchases a customer reviews *)

Local Open Scope Q_scope.

(** [random.uniform(0.2, 0.4)] lies between the doubles 0.2 and 0.4. *)
Lemma uniform_range g u g' :
  uniform (literal 2 10) (literal 4 10) g = Ok (u, g') ->
  exists y, u = Fin y /\
            3602879701896397 # 18014398509481984 <= y /\
            y <= 3602879701896397 # 9007199254740992.
Proof.
  unfold uniform. intros H.
  apply bind_ok in H as (r & g1 & Hr & H). apply ret_ok in H as [<- _].
  apply random_ok in Hr. destruct Hr as (q & -> & Hq0 & Hq1).
  set (A := 3602879701896397 # 18014398509481984).
  set (B := 3602879701896397 # 9007199254740992).
  assert (Ea : literal 2 10 = Fin A) by (vm_compute; reflexivity).
  assert (Ec : fsub (literal 4 10) (literal 2 10) = Fin A)
    by (vm_compute; reflexivity).
  assert (EA : round64 A = Fin A) by (vm_compute; reflexivity).
  assert (EB : round64 (A + A) = Fin B) by (vm_compute; reflexivity).
  rewrite Ec, Ea. cbn [fmul].
  assert (HA : 0 <= A /\ A <= 1 # 4) by (split; discriminate).
  assert (Hcq : 0 <= A * q /\ A * q <= A).
  { split; [apply Qmult_le_0_compat; tauto|].
    setoid_replace A with (A * 1) at 2 by ring.
    rewrite !(Qmult_comm A). apply Qmult_le_compat_r; [|tauto].
    now apply Qlt_le_weak. }
  destruct (round64_err (A * q) (-1)) as (y1 & Ey1 & Hy1 & _).
  { tauto. }
  { change (pow2 (-1 + 1)) with 1. clearbody A. lra. }
  { lia. }
  rewrite Ey1. cbn [fadd].
  assert (Hy1A : y1 <= A).
  { eapply round64_mono; [|exact Ey1|exact EA]. tauto. }
  destruct (round64_err (A + y1) (-1)) as (y2 & Ey2 & _ & _).
  { clearbody A. lra. }
  { change (pow2 (-1 + 1)) with 1. clearbody A. lra. }
  { lia. }
  rewrite Ey2. exists y2. split; [reflexivity|]. split.
  - eapply round64_mono; [|exact EA|exact Ey2]. clearbody A. lra.
  - eapply round64_mono; [|exact Ey2|exact EB]. clearbody A. lra.
Qed.

Lemma inject_Z_le a b : (a <= b)%Z -> inject_Z a <= inject_Z b.
Proof. intros H. now rewrite <- Zle_Qle. Qed.

Lemma num_reviews_float len y :
  (0 <= len <= 2 ^ 31)%Z ->
  3602879701896397 # 18014398509481984 <= y ->
  y <= 3602879701896397 # 9007199254740992 ->
  exists z, fmul (of_int len) (Fin y) = Fin z /\
            (len / 5 <= Qfloor z <= 2 * len / 5)%Z.
Proof.
  intros Hlen Hy1 Hy2. unfold of_int.
  destruct (round64_int len) as (L & EL & HL).
  { split; [lia|]. eapply Z.le_lt_trans; [apply Hlen|]. reflexivity. }
  rewrite EL. cbn [fmul].
  assert (HLq : 0 <= L /\ L <= 2147483648).
  { rewrite HL. split.
    - change 0 with (inject_Z 0). apply inject_Z_le. lia.
    - change 2147483648 with (inject_Z (2 ^ 31)). apply inject_Z_le. lia. }
  assert (Hk : inject_Z (len / 5) * 5 <= L).
  { rewrite HL. change 5 with (inject_Z 5).
    rewrite <- inject_Z_mult. apply inject_Z_le.
    pose proof (Z.mul_div_le len 5 eq_refl). lia. }
  assert (Hm : 2 * L <= inject_Z (2 * len / 5) * 5 + 4).
  { rewrite HL. change 2 with (inject_Z 2). change 5 with (inject_Z 5).
    change 4 with (inject_Z 4).
    rewrite <- !inject_Z_mult, <- inject_Z_plus. apply inject_Z_le.
    pose proof (Z.div_mod (2 * len) 5 ltac:(lia)).
    pose proof (Z.mod_pos_bound (2 * len) 5 eq_refl). lia. }
  assert (Hx1 : L * (3602879701896397 # 18014398509481984) <= L * y).
  { rewrite !(Qmult_comm L). apply Qmult_le_compat_r; tauto. }
  assert (Hx2 : L * y <= L * (3602879701896397 # 9007199254740992)).
  { rewrite !(Qmult_comm L). apply Qmult_le_compat_r; tauto. }
  destruct (round64_err (L * y) 30) as (z & Ez & _ & Herr).
  { lra. }
  { change (30 + 1)%Z with 31%Z. rewrite pow2_31. lra. }
  { lia. }
  exists z. split; [exact Ez|].
  change (30 - 53)%Z with (-23)%Z in Herr. rewrite pow2_m23 in Herr.
  apply Qabs_Qle_condition in Herr. split.
  - destruct (round64_int (len / 5)) as (k & Ek & Hk').
    { split; [apply Z.div_pos; lia|].
      eapply Z.le_lt_trans; [apply Z.div_le_upper_bound with (q := len); lia|].
      eapply Z.le_lt_trans; [apply Hlen|]. reflexivity. }
    assert (Hkz : k <= z).
    { eapply round64_mono; [|exact Ek|exact Ez].
      revert Hk Hx1. generalize (inject_Z (len / 5)). intros. lra. }
    rewrite <- (Qfloor_Z (len / 5)). apply Qfloor_resp_le.
    now rewrite <- Hk'.
  - assert (Hz : z < inject_Z (2 * len / 5 + 1)).
    { rewrite inject_Z_plus. change (inject_Z 1) with 1.
      revert Hm Hx2 Herr. generalize (inject_Z (2 * len / 5)). intros. lra. }
    assert (Hf : inject_Z (Qfloor z) < inject_Z (2 * len / 5 + 1))
      by (eapply Qle_lt_trans; [apply Qfloor_le|exact Hz]).
    rewrite <- Zlt_Qlt in Hf. lia.
Qed.

Local Close Scope Q_scope.

Lemma draw_num_reviews_share product_orders g n g' :
  Z.of_nat (length product_orders) <= 2 ^ 31 ->
  draw_num_reviews product_orders g = Ok (n, g') ->
  share (Z.of_nat (length product_orders)) n.
Proof.
  intros Hlen H. unfold draw_num_reviews in H.
  apply bind_ok in H as (u & g1 & Hu & H).
  apply uniform_range in Hu. destruct Hu as (y & -> & Hy1 & Hy2).
  destruct (num_reviews_float (Z.of_nat (length product_orders)) y)
    as (z & Ez & Hz); [lia|assumption|assumption|].
  rewrite Ez in H. cbn [int_of_double] in H.
  apply bind_ok in H as (n0 & g2 & Hn0 & H).
  apply ret_ok in Hn0 as [<- _]. apply ret_ok in H as [<- _].
  unfold share. lia.
Qed.

Lemma draw_num_reviews_total product_orders g :
  Z.of_nat (length product_orders) <= 2 ^ 31 ->
  exists n g', draw_num_reviews product_orders g = Ok (n, g').
Proof.
  intros Hlen. unfold draw_num_reviews, bind.
  destruct (uniform_total (literal 2 10) (literal 4 10) g) as (u & g1 & Eu).
  rewrite Eu. apply uniform_range in Eu. destruct Eu as (y & -> & Hy1 & Hy2).
  destruct (num_reviews_float (Z.of_nat (length product_orders)) y)
    as (z & Ez & _); [lia|assumption|assumption|].
  rewrite Ez. cbn [int_of_double]. unfold ret. eauto.
Qed.


(* ------------------------------------------------------------------ *)
(** ** The reviews of one customer *)

Lemma choices1_range g rating g' :
  choices1 [5; 4; 3; 2; 1] [40; 30; 15; 10; 5] g = Ok (rating, g') ->
  1 <= rating <= 5.
Proof.
  intros H. destruct (choices1_ok g) as (s & g1 & E & Hs).
  rewrite E in H. injection H as <- _. exact Hs.
Qed.

Lemma choice_In {A} (seq : list A) g x g' :
  choice seq g = Ok (x, g') -> In x seq.
Proof.
  destruct seq as [|d seq]; [discriminate|].
  unfold choice. intros H.
  apply bind_ok in H as (j & g1 & Hj & H). apply ret_ok in H as [<- _].
  apply randbelow_ok in Hj; [|simpl length; lia].
  apply nth_In. lia.
Qed.

Lemma selection_firstn {A} (population sel : list A) n :
  selection population sel -> selection population (firstn n sel).
Proof.
  intros (positions & Hnd & HF). exists (firstn n positions). split.
  - rewrite <- (firstn_skipn n positions) in Hnd.
    eapply NoDup_app_remove_r. exact Hnd.
  - clear Hnd. revert n. induction HF as [|i x ps xs Hix HF IH];
      intros [|n]; simpl; constructor; auto.
Qed.

Lemma selection_length {A} (population sel : list A) k g g' :
  sample population k g = Ok (sel, g') ->
  Z.of_nat (length sel) = k /\ k <= Z.of_nat (length population) /\
  selection population sel.
Proof.
  intros H. apply sample_ok in H. tauto.
Qed.

(** What the loop over one customer's sample appends: a review for each
    purchase of a prefix of the sample, the whole sample unless the cap
    stops the loop. *)
Lemma emit_loop_block cid rp st g st' g' :
  emit_loop cid rp st g = Ok (st', g') ->
  exists block,
    reviews st' = reviews st ++ block /\
    review_count st' = review_count st + Z.of_nat (length block) /\
    Forall2 (fun p r => review_from cid p r /\ well_rated r)
            (firstn (length block) rp) block /\
    (length block <= length rp)%nat /\
    (review_count st' < 200 -> length block = length rp).
Proof.
  revert st g. induction rp as [|p rp IH]; intros st g H;
    cbn [emit_loop] in H.
  - apply ret_ok in H as [<- _]. exists []. simpl.
    rewrite app_nil_r, Z.add_0_r. repeat split; auto.
  - destruct (200 <=? review_count st) eqn:Ecap.
    + apply ret_ok in H as [<- _]. apply Z.leb_le in Ecap.
      exists []. simpl. rewrite app_nil_r, Z.add_0_r.
      repeat split; auto; lia.
    + apply bind_ok in H as (stars & g1 & Hstars & H).
      apply bind_ok in H as (text & g2 & Htext & H).
      apply bind_ok in H as (days & g3 & Hdays & H).
      apply bind_ok in H as (date & g4 & Hdate & H).
      apply choices1_range in Hstars. apply choice_In in Htext.
      apply randint_ok in Hdays; [|lia]. apply add_days_ok in Hdate.
      apply IH in H. destruct H as (block & Hr & Hc & HF & Hlen & Hfull).
      cbn [reviews review_count] in Hr, Hc.
      match type of Hr with
      | _ = (_ ++ [?r]) ++ _ => set (rv := r) in *
      end.
      exists (rv :: block). simpl length. repeat split.
      * rewrite Hr, <- app_assoc. reflexivity.
      * lia.
      * cbn [firstn]. constructor; [|exact HF].
        split; [|split; assumption].
        unfold review_from, rv. cbn. repeat split. eauto.
      * lia.
      * intros Hlt. rewrite Hfull by exact Hlt. reflexivity.
Qed.

Lemma blocks_skipped (m : PurchaseMap) :
  Forall2 block_ok m (map (fun _ => []) m).
Proof.
  induction m as [|[cid l] m IH]; simpl; constructor; auto.
  split.
  - exists []. split; [|constructor]. exists []. split; constructor.
  - intros _. simpl. lia.
Qed.

Lemma concat_skipped {A B} (m : list A) :
  concat (map (fun _ => @nil B) m) = [].
Proof. induction m; simpl; auto. Qed.

(** What the loop over the customers appends: one block per entry of the
    map, in the map's order. *)
Lemma customer_loop_blocks m st g st' g' :
  customer_loop m st g = Ok (st', g') ->
  exists blocks,
    reviews st' = reviews st ++ concat blocks /\
    review_count st' = review_count st + Z.of_nat (length (concat blocks)) /\
    Forall2 block_ok m blocks /\
    (review_count st' < 200 -> Forall2 block_full m blocks).
Proof.
  revert st g. induction m as [|[cid l] m IH]; intros st g H;
    cbn [customer_loop] in H.
  - apply ret_ok in H as [<- _]. exists []. simpl.
    rewrite app_nil_r, Z.add_0_r. repeat split; constructor.
  - destruct (200 <=? review_count st) eqn:Ecap.
    + apply ret_ok in H as [<- _]. apply Z.leb_le in Ecap.
      exists (map (fun _ => []) ((cid, l) :: m)).
      rewrite concat_skipped. simpl length.
      rewrite app_nil_r, Z.add_0_r. repeat split.
      * apply blocks_skipped.
      * lia.
    + apply bind_ok in H as (n & g1 & Hn & H).
      apply bind_ok in H as (rp & g2 & Hrp & H).
      apply bind_ok in H as (st1 & g3 & Hst1 & H).
      pose proof (draw_num_reviews_ok _ _ _ _ Hn) as Hn1.
      apply selection_length in Hrp. destruct Hrp as (Hlen & _ & Hsel).
      apply emit_loop_block in Hst1.
      destruct Hst1 as (block & Hr1 & Hc1 & HF1 & Hb1 & Hfull1).
      apply IH in H. destruct H as (blocks & Hr & Hc & HF & Hfull).
      exists (block :: blocks). cbn [concat]. rewrite length_app.
      split; [|split; [|split]].
      * rewrite Hr, Hr1, <- app_assoc. reflexivity.
      * lia.
      * constructor; [|exact HF]. split; cbn [fst snd].
        -- exists (firstn (length block) rp).
           split; [now apply selection_firstn|exact HF1].
        -- intros Hl.
           pose proof (draw_num_reviews_share l g n g1 Hl Hn) as [_ Hs].
           lia.
      * intros Hlt. constructor; [|apply Hfull; exact Hlt].
        intros Hne. cbn [snd] in *.
        assert (Hl1 : 1 <= Z.of_nat (length l))
          by (destruct l; [congruence|simpl length; lia]).
        rewrite Hfull1 by lia. split; [lia|].
        intros Hl.
        pose proof (draw_num_reviews_share l g n g1 Hl Hn) as [Hs _].
        assert (Hfive : Z.of_nat (length l) / 5 <= Z.of_nat (length l))
          by (apply Z.div_le_upper_bound; lia).
        lia.
Qed.


(* ------------------------------------------------------------------ *)
(** ** The shape of [customer_product_map] *)

Lemma map_append_keys cid p m k :
  In k (map fst (map_append cid p m)) <-> k = cid \/ In k (map fst m).
Proof.
  induction m as [|[k0 l] m IH]; simpl.
  - intuition.
  - destruct (String.eqb k0 cid) eqn:E; simpl.
    + apply String.eqb_eq in E. subst k0. intuition.
    + rewrite IH. intuition.
Qed.

Lemma map_append_NoDup cid p m :
  NoDup (map fst m) -> NoDup (map fst (map_append cid p m)).
Proof.
  induction m as [|[k0 l] m IH]; simpl; intros H.
  - constructor; [intros []|constructor].
  - destruct (String.eqb k0 cid) eqn:E; simpl; [exact H|].
    inversion H as [|? ? Hk Hm]; subst. constructor; [|now apply IH].
    rewrite map_append_keys. intros [->|Hin]; [|contradiction].
    now rewrite String.eqb_refl in E.
Qed.

Lemma map_append_nonempty cid p m :
  Forall (fun e => snd e <> []) m ->
  Forall (fun e => snd e <> []) (map_append cid p m).
Proof.
  induction m as [|[k0 l] m IH]; simpl; intros H.
  - constructor; [discriminate|constructor].
  - inversion H as [|? ? Hl Hm]; subst.
    destruct (String.eqb k0 cid); constructor; auto.
    simpl. intros E. apply app_eq_nil in E. destruct E; discriminate.
Qed.

Lemma map_append_count cid p m :
  length (concat (map snd (map_append cid p m)))
  = S (length (concat (map snd m))).
Proof.
  induction m as [|[k0 l] m IH]; simpl.
  - reflexivity.
  - destruct (String.eqb k0 cid); simpl.
    + rewrite !length_app. simpl. lia.
    + rewrite !length_app, IH. lia.
Qed.

Lemma map_append_mem cid p m :
  exists l, In (cid, l) (map_append cid p m) /\ In p l.
Proof.
  induction m as [|[k0 l] m IH]; simpl.
  - exists [p]. split; now left.
  - destruct (String.eqb k0 cid) eqn:E.
    + apply String.eqb_eq in E. subst k0. exists (l ++ [p]).
      split; [now left|]. apply in_or_app. right. now left.
    + destruct IH as (l' & H1 & H2). exists l'. split; [now right|exact H2].
Qed.

Lemma map_append_keep cid p m k l q :
  In (k, l) m -> In q l ->
  exists l', In (k, l') (map_append cid p m) /\ In q l'.
Proof.
  induction m as [|[k0 l0] m IH]; simpl; intros Hm Hq; [destruct Hm|].
  destruct (String.eqb k0 cid) eqn:E.
  - destruct Hm as [Hm|Hm].
    + injection Hm as -> ->. exists (l ++ [p]).
      split; [now left|]. apply in_or_app. now left.
    + exists l. split; [now right|exact Hq].
  - destruct Hm as [Hm|Hm].
    + exists l. split; [now left|exact Hq].
    + destruct (IH Hm Hq) as (l' & H1 & H2). exists l'.
      split; [now right|exact H2].
Qed.

Lemma map_fold_shape orders items m :
  NoDup (map fst m) ->
  Forall (fun e => snd e <> []) m ->
  let m' := fold_left (map_step orders) items m in
  NoDup (map fst m') /\
  Forall (fun e => snd e <> []) m' /\
  length (concat (map snd m'))
  = (length (concat (map snd m))
     + length (filter (reviewable orders) items))%nat /\
  (forall k l q, In (k, l) m -> In q l ->
                 exists l', In (k, l') m' /\ In q l') /\
  Forall (filed orders m') items.
Proof.
  revert m. induction items as [|item items IH]; intros m Hnd Hne; simpl.
  - repeat split; auto. intros k l q H1 H2. exists l. auto.
  - assert (Hstep : NoDup (map fst (map_step orders m item)) /\
                    Forall (fun e => snd e <> []) (map_step orders m item)).
    { unfold map_step. destruct (find _ orders) as [o|]; [|auto].
      destruct (fulfilled o); [|auto].
      split; [now apply map_append_NoDup|now apply map_append_nonempty]. }
    destruct Hstep as [Hnd' Hne'].
    destruct (IH (map_step orders m item) Hnd' Hne')
      as (H1 & H2 & H3 & H4 & H5).
    split; [exact H1|]. split; [exact H2|]. split; [|split].
    + rewrite H3. unfold map_step, reviewable.
      destruct (find _ orders) as [o|]; [|simpl; lia].
      destruct (fulfilled o); [|simpl; lia].
      rewrite map_append_count. simpl length. lia.
    + intros k l q Hin Hq.
      assert (Hk : exists l0, In (k, l0) (map_step orders m item) /\ In q l0).
      { unfold map_step. destruct (find _ orders) as [o|]; [|eauto].
        destruct (fulfilled o); [|eauto].
        eapply map_append_keep; eassumption. }
      destruct Hk as (l0 & Hin0 & Hq0). eapply H4; eassumption.
    + constructor; [|exact H5].
      intros order Hfind Hful.
      assert (Es : map_step orders m item
                   = map_append (customer_id order)
                       {| p_product_id := oi_product_id item;
                          p_order_date := order_date order |} m)
        by (unfold map_step; now rewrite Hfind, Hful).
      rewrite Es in *.
      destruct (map_append_mem (customer_id order)
                  {| p_product_id := oi_product_id item;
                     p_order_date := order_date order |} m)
        as (l & Hin & Hp).
      eapply H4; eassumption.
Qed.

(* ------------------------------------------------------------------ *)
(** ** The number of reviews of one customer *)

(** X4. [max(1, int(len(product_orders) * random.uniform(0.2, 0.4)))]
    always yields a number for a list of at most 2^31 purchases, and the
    number lies between a fifth and two fifths of the list's length,
    rounded down, and is at least 1: the binary64 product never crosses
    an integer the exact product does not reach. *)
Theorem review_share_bounds (product_orders : list Purchase) g :
  Z.of_nat (length product_orders) <= 2 ^ 31 ->
  exists n g',
    draw_num_reviews product_orders g = Ok (n, g') /\
    share (Z.of_nat (length product_orders)) n.
Proof.
  intros Hlen.
  destruct (draw_num_reviews_total product_orders g Hlen) as (n & g' & E).
  exists n, g'. split; [exact E|].
  eapply draw_num_reviews_share; eassumption.
Qed.

Lemma review_share_bounds_witness :
  exists n g',
    draw_num_reviews
      (repeat {| p_product_id := "101"%string; p_order_date := 739252 |} 12)
      Demo.rng = Ok (n, g') /\
    share 12 n.
Proof.
  apply (review_share_bounds
           (repeat {| p_product_id := "101"%string;
                      p_order_date := 739252 |} 12)
           Demo.rng).
  vm_compute. discriminate.
Defined.

(* ------------------------------------------------------------------ *)
(** ** The purchase map *)

(** X5. [customer_product_map] has one entry per customer, no entry is
    empty, it holds exactly one purchase for every order item that
    resolves to a Delivered or Shipped order, and every such item is
    filed under the customer of its order, with the product of the item
    and the date of the order. *)
Theorem purchase_map_shape orders order_items :
  NoDup (map fst (customer_product_map orders order_items)) /\
  Forall (fun e => snd e <> []) (customer_product_map orders order_items) /\
  length (concat (map snd (customer_product_map orders order_items)))
  = length (filter (reviewable orders) order_items) /\
  Forall (filed orders (customer_product_map orders order_items)) order_items.
Proof.
  destruct (map_fold_shape orders order_items [])
    as (H1 & H2 & H3 & _ & H5); [constructor|constructor|].
  unfold customer_product_map. repeat split; assumption.
Qed.

(* ------------------------------------------------------------------ *)
(** ** The reviews, customer by customer *)

Lemma generate_reviews_blocks orders order_items g rs g' :
  generate_reviews orders order_items g = Ok (rs, g') ->
  exists blocks,
    rs = concat blocks /\
    Forall2 block_ok (customer_product_map orders order_items) blocks /\
    ((length rs < 200)%nat ->
     Forall2 block_full (customer_product_map orders order_items) blocks).
Proof.
  unfold generate_reviews. intros H.
  apply bind_ok in H as (st & g1 & Hst & H). apply ret_ok in H as [<- _].
  apply customer_loop_blocks in Hst.
  destruct Hst as (blocks & Hr & Hc & Hok & Hfull).
  cbn [reviews review_count] in Hr, Hc. simpl in Hr.
  exists blocks. split; [exact Hr|]. split; [exact Hok|].
  intros Hlt. apply Hfull. rewrite Hc, <- Hr. lia.
Qed.


Lemma Forall2_In_r {A B} (R : A -> B -> Prop) l1 l2 b :
  Forall2 R l1 l2 -> In b l2 -> exists a, In a l1 /\ R a b.
Proof.
  induction 1 as [|x y l1 l2 Hxy HF IH]; intros Hin; [destruct Hin|].
  destruct Hin as [->|Hin].
  - exists x. split; [now left|exact Hxy].
  - destruct (IH Hin) as (a & Ha & Hab). exists a. split; [now right|exact Hab].
Qed.


(** X6. The reviews of a completed generation come customer by customer,
    in the order of [customer_product_map]: one block per entry, each
    block reviewing purchases at pairwise distinct positions of that
    customer's list (no purchase is reviewed twice), with a rating and a
    text of that rating, and holding at most two fifths of the list
    (or one review). *)
Theorem reviews_by_customer orders order_items g rs g' :
  generate_reviews orders order_items g = Ok (rs, g') ->
  exists blocks,
    rs = concat blocks /\
    Forall2 block_ok (customer_product_map orders order_items) blocks.
Proof.
  intros H. apply generate_reviews_blocks in H.
  destruct H as (blocks & Hr & Hok & _). exists blocks. auto.
Qed.

Lemma reviews_by_customer_witness :
  exists blocks,
    Demo.emitted = concat blocks /\
    Forall2 block_ok (customer_product_map Demo.orders Demo.order_items)
            blocks.
Proof.
  apply (reviews_by_customer Demo.orders Demo.order_items Demo.rng_items
           Demo.emitted Demo.rng_reviews).
  vm_compute. reflexivity.
Defined.



(** X8. Every review carries one of the ratings 1 to 5 and a text taken
    from the pool of [review_texts] for that very rating. *)
Theorem reviews_rated orders order_items g rs g' :
  generate_reviews orders order_items g = Ok (rs, g') ->
  Forall well_rated rs.
Proof.
  intros H. apply generate_reviews_blocks in H.
  destruct H as (blocks & -> & Hok & _).
  apply Forall_forall. intros r Hin.
  apply in_concat in Hin. destruct Hin as (block & Hb & Hr).
  destruct (Forall2_In_r _ _ _ _ Hok Hb) as (entry & _ & (sel & _ & HF) & _).
  destruct (Forall2_In_r _ _ _ _ HF Hr) as (p & _ & _ & Hw). exact Hw.
Qed.

Lemma reviews_rated_witness : Forall well_rated Demo.emitted.
Proof.
  apply (reviews_rated Demo.orders Demo.order_items Demo.rng_items
           Demo.emitted Demo.rng_reviews).
  vm_compute. reflexivity.
Defined.

(* ------------------------------------------------------------------ *)
(** ** What the written rows refer to *)

Lemma generated_item_refers products orders g done order_items g' item :
  generate_order_items products orders g = Ok (done, order_items, g') ->
  In item order_items ->
  item_refers products orders item.
Proof.
  intros H Hin.
  destruct (generate_order_items_ok _ _ _ _ _ _ H) as (chunks & Hc & Hf & ->).
  destruct (chunked_item _ _ _ _ _ Hc Hin)
    as (order & ct & line & id' & Hd & Hp & _ & ->).
  split.
  - exists order. split; [|reflexivity].
    rewrite <- Hf. change order with (fst (order, ct)). now apply in_map.
  - exists (fst line). split; [exact Hp|reflexivity].
Qed.

Lemma generated_review_refers products orders g done order_items g1 rs g2 r :
  generate_order_items products orders g = Ok (done, order_items, g1) ->
  generate_reviews orders order_items g1 = Ok (rs, g2) ->
  In r rs ->
  review_refers products orders r.
Proof.
  intros Hi Hr Hin. apply generate_reviews_ok in Hr.
  destruct Hr as (_ & _ & HF). rewrite Forall_forall in HF.
  destruct (HF r Hin)
    as (cid & p & (item & order & Hitem & Hfind & _ & Hcid & Hpid & _)
        & Hc & Hp & _).
  split.
  - destruct (generated_item_refers _ _ _ _ _ _ _ Hi Hitem)
      as (_ & product & Hprod & Eprod).
    exists product. split; [exact Hprod|]. congruence.
  - apply find_some in Hfind. exists order. split; [tauto|congruence].
Qed.

(** X9. In a completed run every review written to [reviews.csv] names
    a product of [products.csv] and the customer of an order of
    [orders.csv]. *)
Theorem reviews_refer fs g fs' products orders rs :
  main fs g = (fs', None) ->
  products_csv fs = Some products ->
  orders_csv fs = Some orders ->
  reviews_csv fs' = Some rs ->
  Forall (review_refers products orders) rs.
Proof.
  intros H Hp Ho Hr. apply main_done in H.
  destruct H as (customers & products' & orders' & done & order_items & g1
                 & rs' & g2 & _ & Hp' & Ho' & Hi & _ & Hrs & ->).
  cbn in Hr.
  assert (products' = products) by congruence.
  assert (orders' = orders) by congruence.
  assert (rs' = rs) by congruence. subst.
  apply Forall_forall. intros r Hin.
  eapply generated_review_refers; eassumption.
Qed.

Lemma reviews_refer_witness :
  Forall (review_refers Demo.products Demo.orders) Demo.emitted.
Proof.
  apply (reviews_refer Demo.files Demo.rng Demo.after);
    vm_compute; reflexivity.
Defined.

(* ------------------------------------------------------------------ *)
(** ** Inputs on which the run completes *)

Lemma add_days_total date n g :
  date + n <= max_ordinal -> add_days date n g = Ok (date + n, g).
Proof.
  intros H. unfold add_days.
  destruct (max_ordinal <? date + n) eqn:E; [|reflexivity].
  apply Z.ltb_lt in E. lia.
Qed.

Lemma emit_loop_total cid rp st g :
  Forall (fun p => p_order_date p + 30 <= max_ordinal) rp ->
  exists st' g', emit_loop cid rp st g = Ok (st', g').
Proof.
  intros Hd. revert st g.
  induction Hd as [|p rp Hp Hrp IH]; intros st g; cbn [emit_loop].
  - unfold ret. eauto.
  - destruct (200 <=? review_count st); [unfold ret; eauto|].
    destruct (choices1_ok g) as (stars & g1 & Es & Hs).
    unfold bind at 1. rewrite Es.
    destruct (choice_total (review_texts stars) g1
                (review_texts_nonempty stars Hs)) as (text & g2 & Et).
    unfold bind at 1. rewrite Et.
    destruct (randint_total 1 30 g2) as (days & g3 & Ed).
    unfold bind at 1. rewrite Ed.
    apply randint_ok in Ed; [|lia].
    unfold bind at 1. rewrite add_days_total by lia.
    apply IH.
Qed.

Lemma customer_loop_total m st g :
  Forall (fun e =>
            Z.of_nat (length (snd e)) <= 2 ^ 31 /\
            Forall (fun p => p_order_date p + 30 <= max_ordinal) (snd e)) m ->
  exists st' g', customer_loop m st g = Ok (st', g').
Proof.
  intros Hm. revert st g.
  induction Hm as [|[cid l] m [Hlen Hd] Hm IH]; intros st g;
    cbn [customer_loop].
  - unfold ret. eauto.
  - destruct (200 <=? review_count st); [unfold ret; eauto|].
    cbn [snd] in Hlen, Hd.
    destruct (draw_num_reviews_total l g Hlen) as (n & g1 & En).
    unfold bind at 1. rewrite En.
    apply draw_num_reviews_ok in En.
    destruct (sample_total l (Z.min n (Z.of_nat (length l))) g1)
      as (rp & g2 & Es); [lia|].
    unfold bind at 1. rewrite Es.
    apply sample_ok in Es. destruct Es as (_ & _ & _ & Hin).
    destruct (emit_loop_total cid rp st g2) as (st1 & g3 & Ee).
    { apply Forall_forall. intros p Hp. rewrite Forall_forall in Hd.
      apply Hd, Hin, Hp. }
    unfold bind at 1. rewrite Ee. apply IH.
Qed.

Lemma chunked_length products id done chunks :
  chunked products id done chunks ->
  Z.of_nat (length (concat chunks)) <= 5 * Z.of_nat (length done).
Proof.
  induction 1 as [id|id order ct chunk done chunks Hc Hch IH].
  - simpl. lia.
  - cbn [concat]. rewrite length_app. cbn [length].
    destruct Hc as (lines & _ & _ & Hn & -> & _).
    rewrite make_items_length.
    assert (max_items order <= 5)
      by (unfold max_items; destruct (String.eqb _ _); lia).
    lia.
Qed.

Lemma concat_length_In {A} (l : list A) ls :
  In l ls -> (length l <= length (concat ls))%nat.
Proof.
  induction ls as [|x ls IH]; intros Hin; [destruct Hin|].
  cbn [concat]. rewrite length_app. destruct Hin as [->|Hin]; [lia|].
  specialize (IH Hin). lia.
Qed.

Lemma filter_length_le {A} (f : A -> bool) l :
  (length (filter f l) <= length l)%nat.
Proof.
  induction l as [|x l IH]; simpl; [lia|]. destruct (f x); simpl; lia.
Qed.

Lemma generate_reviews_total orders order_items g :
  Z.of_nat (length order_items) <= 2 ^ 31 ->
  Forall (fun order => fulfilled order = true ->
                       order_date order + 30 <= max_ordinal) orders ->
  exists rs g', generate_reviews orders order_items g = Ok (rs, g').
Proof.
  intros Hlen Hd. unfold generate_reviews.
  destruct (customer_loop_total (customer_product_map orders order_items)
              {| reviews := []; next_review_id := 6001; review_count := 0 |}
              g) as (st & g' & E).
  - apply Forall_forall. intros [cid l] Hin. cbn [snd]. split.
    + destruct (map_fold_shape orders order_items [])
        as (_ & _ & Hc & _); [constructor|constructor|].
      fold (customer_product_map orders order_items) in Hc. simpl in Hc.
      pose proof (concat_length_In l
                    (map snd (customer_product_map orders order_items))) as Hl.
      pose proof (filter_length_le (reviewable orders) order_items).
      assert (In l (map snd (customer_product_map orders order_items)))
        by (change l with (snd (cid, l)); now apply in_map).
      specialize (Hl ltac:(assumption)). lia.
    + apply Forall_forall. intros p Hp.
      assert (Hs : map_sound orders order_items
                     (customer_product_map orders order_items)).
      { apply customer_product_map_sound; [apply incl_refl|].
        intros ? ? ? []. }
      destruct (Hs cid l p Hin Hp)
        as (item & order & _ & Hfind & Hful & _ & _ & ->).
      apply find_some in Hfind. destruct Hfind as [Horder _].
      rewrite Forall_forall in Hd. now apply Hd.
  - unfold bind. rewrite E. unfold ret. eauto.
Qed.

Lemma main_completes fs g customers products orders :
  customers_csv fs = Some customers ->
  products_csv fs = Some products ->
  orders_csv fs = Some orders ->
  Forall (fun order => max_items order <= Z.of_nat (length products))
         orders ->
  Forall (fun order => fulfilled order = true ->
                       order_date order + 30 <= max_ordinal) orders ->
  Z.of_nat (length orders) <= 2 ^ 28 ->
  exists fs' order_items rewritten rs,
    main fs g = (fs', None) /\
    order_items_csv fs' = Some order_items /\
    orders_csv fs' = Some rewritten /\
    reviews_csv fs' = Some rs.
Proof.
  intros Hc Hp Ho Hcat Hd Hlen. unfold main. rewrite Hc, Hp, Ho.
  destruct (order_loop_enough products orders [] 5001 g Hcat)
    as ([[done its] nid] & g1 & E).
  assert (Ei : generate_order_items products orders g = Ok (done, its, g1))
    by (unfold generate_order_items, bind; now rewrite E).
  rewrite Ei.
  destruct (generate_order_items_ok _ _ _ _ _ _ Ei) as (chunks & Hch & Hf & ->).
  apply chunked_length in Hch.
  assert (Hdone : length done = length orders)
    by (rewrite <- Hf; now rewrite length_map).
  rewrite Hf.
  destruct (generate_reviews_total orders (concat chunks) g1)
    as (rs & g2 & Er); [lia|exact Hd|].
  rewrite Er. eexists. eexists. eexists. eexists.
  split; [reflexivity|]. cbn. repeat split.
Qed.

(* ------------------------------------------------------------------ *)
(** ** The lookup of an item's order *)

Lemma find_id_some orders order id :
  In order orders -> id = order_id order ->
  exists found,
    find (fun o => String.eqb (order_id o) id) orders = Some found /\
    order_id found = id.
Proof.
  intros Hin ->.
  destruct (find (fun o => String.eqb (order_id o) (order_id order)) orders)
    as [found|] eqn:E.
  - exists found. split; [reflexivity|].
    apply find_some in E. destruct E as [_ E]. now apply String.eqb_eq in E.
  - eapply find_none in E; [|exact Hin]. cbn in E.
    now rewrite String.eqb_refl in E.
Qed.

(** X12. The search [next((o for o in orders if ...), None)] of the
    purchase map always finds an order on the generated items: every
    item resolves to an order of [orders.csv] with the item's
    [order_id], so the default [None] is never returned and no item is
    dropped for want of an order. *)
Theorem order_lookup_succeeds products orders g done order_items g' :
  generate_order_items products orders g = Ok (done, order_items, g') ->
  Forall (fun item =>
            exists order,
              find (fun o => String.eqb (order_id o) (oi_order_id item))
                   orders = Some order /\
              In order orders /\
              order_id order = oi_order_id item)
         order_items.
Proof.
  intros H. apply Forall_forall. intros item Hin.
  destruct (generated_item_refers _ _ _ _ _ _ _ H Hin)
    as ((order & Horder & E) & _).
  destruct (find_id_some orders order (oi_order_id item) Horder E)
    as (found & Hfind & Hid).
  exists found. split; [exact Hfind|]. split; [|exact Hid].
  apply find_some in Hfind. tauto.
Qed.

Lemma order_lookup_succeeds_witness :
  Forall (fun item =>
            exists order,
              find (fun o => String.eqb (order_id o) (oi_order_id item))
                   Demo.orders = Some order /\
              In order Demo.orders /\
              order_id order = oi_order_id item)
         Demo.order_items.
Proof.
  apply (order_lookup_succeeds Demo.products Demo.orders Demo.rng Demo.done
           Demo.order_items Demo.rng_items).
  vm_compute. reflexivity.
Defined.

(* ================================================================== *)
(** * The script on rows as they are read: properties *)

(* ------------------------------------------------------------------ *)
(** ** On rows whose cells parse *)

Lemma sample_map {A B} (f : A -> B) population k g :
  sample (map f population) k g =
  match sample population k g with
  | Ok (sel, g') => Ok (map f sel, g')
  | Raise e => Raise e
  end.
Proof.
  unfold sample. rewrite length_map.
  destruct ((k <? 0) || (Z.of_nat (length population) <? k));
    [reflexivity|].
  apply sample_pool_map.
Qed.

Lemma item_loop_rows_parsed order sel total order_items id g :
  item_loop_rows (row_of_order order) (map row_of_product sel) total
    order_items id g
  = item_loop order sel total order_items id g.
Proof.
  revert total order_items id g.
  induction sel as [|p sel IH]; intros total order_items id g;
    cbn [map item_loop_rows item_loop]; [reflexivity|].
  unfold bind. destruct (randint 1 3 g) as [[q g1]|e]; [|reflexivity].
  cbn [row_of_product t_price float_of_cell ret]. apply IH.
Qed.

Lemma order_body_rows_parsed products order order_items id g :
  order_body_rows (map row_of_product products) (row_of_order order)
    order_items id g
  = order_body products order order_items id g.
Proof.
  unfold order_body_rows, order_body, bind.
  cbn [row_of_order t_order_status].
  destruct ((if String.eqb (order_status order) "Cancelled"
             then randint 1 3 else randint 1 5) g) as [[n g1]|e];
    [|reflexivity].
  rewrite sample_map.
  destruct (sample products n g1) as [[sel g2]|e]; [|reflexivity].
  rewrite item_loop_rows_parsed. reflexivity.
Qed.

Lemma order_loop_rows_parsed products orders order_items id g :
  order_loop_rows (map row_of_product products) (map row_of_order orders)
    order_items id g
  = match order_loop products orders order_items id g with
    | Ok (done, its, nid, g') => Ok (done_rows done, its, nid, g')
    | Raise e => Raise e
    end.
Proof.
  revert order_items id g.
  induction orders as [|o orders IH]; intros order_items id g;
    cbn [map order_loop_rows order_loop]; [reflexivity|].
  unfold bind. rewrite order_body_rows_parsed.
  destruct (order_body products o order_items id g)
    as [[[[ct its] nid] g1]|e]; [|reflexivity].
  rewrite IH.
  destruct (order_loop products orders its nid g1)
    as [[[[done its'] nid'] g2]|e]; reflexivity.
Qed.

Lemma generate_order_items_rows_parsed products orders g :
  generate_order_items_rows (map row_of_product products)
    (map row_of_order orders) g
  = match generate_order_items products orders g with
    | Ok (done, its, g') => Ok (done_rows done, its, g')
    | Raise e => Raise e
    end.
Proof.
  unfold generate_order_items_rows, generate_order_items, bind.
  rewrite order_loop_rows_parsed.
  destruct (order_loop products orders [] 5001 g)
    as [[[[done its] nid] g1]|e]; reflexivity.
Qed.

Lemma done_rows_rewritten done :
  map rewrite_order_row (done_rows done)
  = map row_of_order (map rewrite_order done).
Proof.
  unfold done_rows. rewrite !map_map. apply map_ext.
  intros [o ct]. reflexivity.
Qed.

Lemma done_rows_orders done :
  map fst (done_rows done) = map row_of_order (map fst done).
Proof.
  unfold done_rows. rewrite !map_map. apply map_ext.
  intros [o ct]. reflexivity.
Qed.

Lemma map_append_rows_parsed cid p m :
  map_append_rows cid (row_of_purchase p) (rows_of_map m)
  = rows_of_map (map_append cid p m).
Proof.
  unfold rows_of_map.
  induction m as [|[k l] m IH]; cbn [map map_append map_append_rows fst snd];
    [reflexivity|].
  destruct (String.eqb k cid); cbn [map fst snd].
  - rewrite map_app. reflexivity.
  - rewrite IH. reflexivity.
Qed.

Lemma find_row_parsed orders id :
  find (fun o => String.eqb (t_order_id o) id) (map row_of_order orders)
  = option_map row_of_order
      (find (fun o => String.eqb (order_id o) id) orders).
Proof.
  induction orders as [|o orders IH]; cbn [map find]; [reflexivity|].
  cbn [row_of_order t_order_id].
  destruct (String.eqb (order_id o) id); [reflexivity|exact IH].
Qed.

Lemma map_step_rows_parsed orders m item :
  map_step_rows (map row_of_order orders) (rows_of_map m) item
  = rows_of_map (map_step orders m item).
Proof.
  unfold map_step_rows, map_step. rewrite find_row_parsed.
  destruct (find _ orders) as [o|]; cbn [option_map]; [|reflexivity].
  change (fulfilled_row (row_of_order o)) with (fulfilled o).
  destruct (fulfilled o); [|reflexivity].
  apply (map_append_rows_parsed (customer_id o)
           {| p_product_id := oi_product_id item;
              p_order_date := order_date o |}).
Qed.

Lemma customer_product_map_rows_parsed orders order_items :
  customer_product_map_rows (map row_of_order orders) order_items
  = rows_of_map (customer_product_map orders order_items).
Proof.
  unfold customer_product_map_rows, customer_product_map.
  change (@nil (string * list PurchaseRow)) with (rows_of_map []).
  generalize (@nil (string * list Purchase)) as m.
  induction order_items as [|item items IH]; intros m; cbn [fold_left];
    [reflexivity|].
  rewrite map_step_rows_parsed. apply IH.
Qed.

Lemma emit_loop_rows_parsed cid rp st g :
  emit_loop_rows cid (map row_of_purchase rp) st g = emit_loop cid rp st g.
Proof.
  revert st g. induction rp as [|p rp IH]; intros st g;
    cbn [map emit_loop_rows emit_loop]; [reflexivity|].
  destruct (200 <=? review_count st); [reflexivity|].
  unfold bind.
  destruct (choices1 _ _ g) as [[stars g1]|e]; [|reflexivity].
  destruct (choice _ g1) as [[text g2]|e]; [|reflexivity].
  cbn [row_of_purchase t_p_order_date t_p_product_id strptime ret].
  destruct (randint 1 30 g2) as [[days g3]|e]; [|reflexivity].
  destruct (add_days _ _ g3) as [[date g4]|e]; [|reflexivity].
  apply IH.
Qed.

Lemma draw_num_reviews_rows_length (rows : list PurchaseRow)
    (product_orders : list Purchase) :
  length rows = length product_orders ->
  draw_num_reviews_rows rows = draw_num_reviews product_orders.
Proof.
  intros H. unfold draw_num_reviews_rows, draw_num_reviews.
  rewrite H. reflexivity.
Qed.

Lemma customer_loop_rows_parsed m st g :
  customer_loop_rows (rows_of_map m) st g = customer_loop m st g.
Proof.
  revert st g. induction m as [|[cid l] m IH]; intros st g;
    [reflexivity|].
  change (rows_of_map ((cid, l) :: m))
    with ((cid, map row_of_purchase l) :: rows_of_map m).
  cbn [customer_loop_rows customer_loop].
  destruct (200 <=? review_count st); [reflexivity|].
  unfold bind.
  rewrite (draw_num_reviews_rows_length (map row_of_purchase l) l)
    by apply length_map.
  destruct (draw_num_reviews l g) as [[n g1]|e]; [|reflexivity].
  rewrite length_map, sample_map.
  destruct (sample l _ g1) as [[rp g2]|e]; [|reflexivity].
  rewrite emit_loop_rows_parsed.
  destruct (emit_loop cid rp st g2) as [[st1 g3]|e]; [|reflexivity].
  apply IH.
Qed.

Lemma generate_reviews_rows_parsed orders order_items g :
  generate_reviews_rows (map row_of_order orders) order_items g
  = generate_reviews orders order_items g.
Proof.
  unfold generate_reviews_rows, generate_reviews, bind.
  rewrite customer_product_map_rows_parsed, customer_loop_rows_parsed.
  reflexivity.
Qed.

Lemma script_on_parsed fs g :
  script (disk_of_files fs) g
  = (disk_of_files (fst (main fs g)), snd (main fs g)).
Proof.
  unfold script, main. cbn [disk_of_files d_customers d_products d_orders].
  destruct (customers_csv fs) as [customers|]; [|reflexivity].
  destruct (products_csv fs) as [products|]; [|reflexivity].
  destruct (orders_csv fs) as [orders|]; [|reflexivity].
  cbn [option_map]. rewrite generate_order_items_rows_parsed.
  destruct (generate_order_items products orders g)
    as [[[done order_items] g1]|e]; [|reflexivity].
  rewrite done_rows_orders, generate_reviews_rows_parsed, done_rows_rewritten.
  destruct (generate_reviews (map fst done) order_items g1)
    as [[rs g2]|e]; reflexivity.
Qed.



(* ------------------------------------------------------------------ *)
(** ** When the order items cannot be drawn *)















(* ------------------------------------------------------------------ *)
(** ** Exceptions of the review loops on rows *)


Lemma draw_num_reviews_rows_typed (rows : list PurchaseRow) :
  draw_num_reviews_rows rows
  = draw_num_reviews
      (map (fun _ => {| p_product_id := EmptyString; p_order_date := 0 |})
           rows).
Proof.
  apply draw_num_reviews_rows_length. now rewrite length_map.
Qed.





(* ------------------------------------------------------------------ *)
(** ** The clamped sample of the review loop *)


(** On a list that is not empty (and of at most 2^31 purchases) the
    computed count never exceeds the length: the clamp only ever acts on
    an empty list, which the script's own map does not hold. *)
Lemma num_reviews_within_pool (product_orders : list PurchaseRow) g n g' :
  product_orders <> [] ->
  Z.of_nat (length product_orders) <= 2 ^ 31 ->
  draw_num_reviews_rows product_orders g = Ok (n, g') ->
  n <= Z.of_nat (length product_orders).
Proof.
  intros Hne Hlen H. rewrite draw_num_reviews_rows_typed in H.
  apply draw_num_reviews_share in H; rewrite length_map in *;
    [|exact Hlen].
  unfold share in H.
  assert (H1 : 1 <= Z.of_nat (length product_orders))
    by (destruct product_orders; [congruence|simpl length; lia]).
  assert (H2 : 2 * Z.of_nat (length product_orders) / 5
               <= Z.of_nat (length product_orders))
    by (apply Z.div_le_upper_bound; lia).
  lia.
Qed.



(* ------------------------------------------------------------------ *)
(** ** Missing and empty inputs, and what a failed run leaves *)







(** X10. On input files that exist and whose prices and order dates all
    parse, the run raises no exception and writes all three files when
    the catalog holds at least 3 products for every Cancelled order and
    at least 5 for every other order, no Delivered or Shipped order is
    dated within 30 days of the end of the calendar, and there are at
    most 2^28 orders. *)
Theorem run_completes fs g customers products orders :
  customers_csv fs = Some customers ->
  products_csv fs = Some products ->
  orders_csv fs = Some orders ->
  Forall (fun order => max_items order <= Z.of_nat (length products))
         orders ->
  Forall (fun order => fulfilled order = true ->
                       order_date order + 30 <= max_ordinal) orders ->
  Z.of_nat (length orders) <= 2 ^ 28 ->
  exists fs' order_items rewritten rs,
    script (disk_of_files fs) g = (fs', None) /\
    d_order_items fs' = Some order_items /\
    d_orders fs' = Some rewritten /\
    d_reviews fs' = Some rs.
Proof.
  intros Hc Hp Ho Hcat Hd Hlen.
  destruct (main_completes fs g customers products orders Hc Hp Ho Hcat Hd
              Hlen)
    as (fs' & order_items & rewritten & rs & Hm & Hi & Hw & Hr).
  exists (disk_of_files fs'), order_items, (map row_of_order rewritten), rs.
  rewrite script_on_parsed, Hm.
  cbn [fst snd disk_of_files d_order_items d_orders d_reviews].
  rewrite Hw. auto.
Qed.

Lemma run_completes_witness :
  exists fs' order_items rewritten rs,
    script (disk_of_files Demo.files) Demo.rng = (fs', None) /\
    d_order_items fs' = Some order_items /\
    d_orders fs' = Some rewritten /\
    d_reviews fs' = Some rs.
Proof.
  apply (run_completes Demo.files Demo.rng [] Demo.products Demo.orders).
  - reflexivity.
  - reflexivity.
  - reflexivity.
  - repeat constructor; vm_compute; discriminate.
  - repeat constructor; intros _; vm_compute; discriminate.
  - vm_compute. discriminate.
Defined.
